(** * FHERegisTestnet: the registration contract and its client

    A shallow embedding of
    - [packages/hardhat/contracts/FHERegisTestnet.sol] (module [Contract]);
    - the [useFHERegisTestnetWagmi] hook: its [registerEmail] callback and
      the values it derives from the handle it reads (module [Hook]);
    - the form of [app/_components/FHERegisTestnet.tsx]: the conversion
      between the bytes of an e-mail and the number that is registered,
      [handleSubmit] and the effects (module [Component]).

    Solidity mappings are finite maps read with the type's zero value as
    default, [uint256] is a [Z] with the checked arithmetic of Solidity
    0.8 written out, reverting calls return [None], and the FHE library
    the contract imports is a parameter of the development. An [async]
    callback is a computation that gives way at each [await] and goes on
    from the state it then finds; what a callback reads from its render
    is an argument of its own, apart from the state it writes to. *)

From Stdlib Require Import ZArith.
From stdpp Require Import gmap strings list fin_maps.

Open Scope Z_scope.

(** ** The contract *)

Module Contract.

(** [address] is a 160-bit account, [euint256] and [externalEuint256] are
    [bytes32] handles, [bytes] is a byte string. *)
Abbreviation address := N (only parsing).
Abbreviation euint256 := N (only parsing).
Abbreviation externalEuint256 := N (only parsing).
Abbreviation bytes := (list Byte.byte) (only parsing).

Definition MAX_UINT256 : Z := 2 ^ 256 - 1.

(** [ethers.ZeroHash]: what an unset [euint256] slot reads as. *)
Definition ZeroHash : euint256 := 0%N.

(** Storage of the contract, with the permissions that [FHE.allow] and
    [FHE.allowThis] record in the access-control list as pairs
    (handle, account). *)
Record state : Type := mkState {
  encryptedEmails : gmap address euint256;
  registered : gmap address bool;
  totalRegistered : Z;
  allowed : gset (euint256 * address)
}.

(** Storage right after deployment. *)
Definition initial : state :=
  {| encryptedEmails := ∅; registered := ∅; totalRegistered := 0; allowed := ∅ |}.

(** [registered[user]] and [encryptedEmails[user]]: a key never written
    reads as the zero value of the value type. *)
Definition registered_at (s : state) (user : address) : bool :=
  default false (registered s !! user).

Definition encryptedEmails_at (s : state) (user : address) : euint256 :=
  default ZeroHash (encryptedEmails s !! user).

(** [x += 1] on a [uint256] under Solidity 0.8: panics on overflow. *)
Definition checked_incr (x : Z) : option Z :=
  if decide (x + 1 <= MAX_UINT256) then Some (x + 1) else None.

(** One external call of [registerEmail]. *)
Record call : Type := mkCall {
  sender : address;
  encryptedEmail : externalEuint256;
  zkProof : bytes
}.

Section WithFHE.

(** Address of the deployed contract ([address(this)]). *)
Variable this : address.

(** [FHE.fromExternal], of the imported FHE library: verifies the proof
    for the input handle against the contract and the caller, and
    returns the internal handle; [None] when it reverts. *)
Variable fromExternal : address -> address -> externalEuint256 -> bytes -> option euint256.

Definition registerEmail (msg_sender : address) (encryptedEmail : externalEuint256)
    (zkProof : bytes) (s : state) : option state :=
  let firstTime := negb (registered_at s msg_sender) in
  match fromExternal this msg_sender encryptedEmail zkProof with
  | None => None
  | Some storedEmail =>
      let emails := <[msg_sender := storedEmail]> (encryptedEmails s) in
      let flags := <[msg_sender := true]> (registered s) in
      let handle := default ZeroHash (emails !! msg_sender) in
      let acl := {[ (handle, this) ]} ∪ ({[ (handle, msg_sender) ]} ∪ allowed s) in
      if firstTime then
        match checked_incr (totalRegistered s) with
        | Some n =>
            Some {| encryptedEmails := emails; registered := flags;
                    totalRegistered := n; allowed := acl |}
        | None => None
        end
      else
        Some {| encryptedEmails := emails; registered := flags;
                totalRegistered := totalRegistered s; allowed := acl |}
  end.

Definition getTotalRegistered (s : state) : Z := totalRegistered s.

Definition hasRegistered (user : address) (s : state) : bool := registered_at s user.

Definition encryptedEmailOf (user : address) (s : state) : euint256 :=
  encryptedEmails_at s user.

(** A transaction either commits the new storage or reverts and leaves
    the storage as it was. *)
Definition transact (c : call) (s : state) : state :=
  default s (registerEmail (sender c) (encryptedEmail c) (zkProof c) s).

(** Whether the transaction commits. *)
Definition succeeds (c : call) (s : state) : bool :=
  bool_decide (is_Some (registerEmail (sender c) (encryptedEmail c) (zkProof c) s)).

(** Storage after a sequence of transactions. *)
Fixpoint run (s : state) (tr : list call) : state :=
  match tr with
  | [] => s
  | c :: tr' => run (transact c s) tr'
  end.

(** The step relation of the contract: committed [registerEmail] calls. *)
Inductive step : state -> state -> Prop :=
| step_registerEmail c s s' :
    registerEmail (sender c) (encryptedEmail c) (zkProof c) s = Some s' ->
    step s s'.

(** The number of addresses [a] with [registered[a] = true]. *)
Definition count_registered (s : state) : nat :=
  size (filter (λ kv : address * bool, kv.2 = true) (registered s)).

(** The accounts that called [registerEmail] in a trace. *)
Definition callers (tr : list call) : list address := sender <$> tr.

(** What holds of the storage between calls: an address whose flag is
    not set has no handle, and the handle of an address whose flag is set
    is allowed to that address and to the contract. *)
Definition consistent (s : state) : Prop :=
  forall a,
    (registered_at s a = false -> encryptedEmails s !! a = None)
    /\ (registered_at s a = true ->
        (encryptedEmails_at s a, a) ∈ allowed s
        /\ (encryptedEmails_at s a, this) ∈ allowed s).

(** Whether a call of [a] commits somewhere in a trace started in [s]. *)
Fixpoint committed (a : address) (s : state) (tr : list call) : bool :=
  match tr with
  | [] => false
  | c :: tr' =>
      (bool_decide (sender c = a) && succeeds c s) || committed a (transact c s) tr'
  end.

(** Modelled from the spec: user decryption at the FHE SDK boundary
    ([requestDecryption(handle, authorization)], which the tests call as
    [fhevm.userDecryptEuint(type, handle, contractAddress, signer)]); the
    SDK is not part of this repository. The request is served when the
    access-control list allows the handle to both the user and the
    contract, and then yields the cleartext behind the handle. *)
Definition userDecrypt (cleartext : euint256 -> option Z) (s : state)
    (handle : euint256) (contract user : address) : option Z :=
  if decide ((handle, user) ∈ allowed s ∧ (handle, contract) ∈ allowed s)
  then cleartext handle
  else None.

Section Submissions.

(** [createEncryptedInput(contract, user).add256(v).encrypt()] of the
    SDK: the input handle and its proof. *)
Variable encrypt : address -> address -> Z -> externalEuint256 * bytes.

(** The call with which [user] submits the cleartext [v], as the
    tests and the client make it. *)
Definition submission (sub : address * Z) : call :=
  {| sender := sub.1;
     encryptedEmail := (encrypt this sub.1 sub.2).1;
     zkProof := (encrypt this sub.1 sub.2).2 |}.

(** The cleartext of the last committed submission of [a] in a
    sequence of submissions started in [s], [acc] when there is none. *)
Fixpoint latest (a : address) (s : state) (subs : list (address * Z))
    (acc : option Z) : option Z :=
  match subs with
  | [] => acc
  | sub :: subs' =>
      latest a (transact (submission sub) s) subs'
        (if bool_decide (sub.1 = a) && succeeds (submission sub) s
         then Some sub.2 else acc)
  end.

End Submissions.

End WithFHE.

(** The FHE library of the mock environment the test-suite runs in, reduced
    to what the contract sees: the input handle is the cleartext itself,
    every proof verifies, and the proof bytes are empty. *)
Definition mock_encrypt (contract user : address) (v : Z) : externalEuint256 * bytes :=
  (Z.to_N v, []).

Definition mock_fromExternal (contract user : address) (h : externalEuint256)
    (proof : bytes) : option euint256 := Some h.

Definition mock_cleartext (h : euint256) : option Z := Some (Z.of_N h).

(** The accounts of the test-suite. *)
Definition contractAddress : address := 42%N.
Definition alice : address := 1001%N.
Definition bob : address := 1002%N.

End Contract.

(** ** The client hook *)

Module Hook.

(** A thrown value: an [Error] with its [message], or any other value with
    what [String(e)] gives. *)
Inductive thrown : Type :=
| ErrorObject (message : string)
| OtherValue (text : string).

(** [e instanceof Error ? e.message : String(e)] *)
Definition describe (e : thrown) : string :=
  match e with
  | ErrorObject m => m
  | OtherValue t => t
  end.

(** How a call into a library ends: with a value, or by throwing (for an
    awaited promise: fulfilled or rejected). *)
Inductive outcome (A : Type) : Type :=
| Fulfilled (a : A)
| Rejected (e : thrown).
Arguments Fulfilled {A} a.
Arguments Rejected {A} e.

(** How a block of statements completes. *)
Inductive completion (A : Type) : Type :=
| Normal (a : A)
| Return
| Throw (e : thrown).
Arguments Normal {A} a.
Arguments Return {A}.
Arguments Throw {A} e.

(** How the promise of the [async] callback settles. *)
Inductive promise : Type :=
| Resolved
| RejectedWith (e : thrown).

(** The entries of a contract ABI the hook looks at. *)
Record abiInput : Type := mkInput { internalType : string }.

Record abiItem : Type := mkItem {
  type : string;
  name : string;
  inputs : option (list abiInput)
}.

Record contractInfo : Type := mkInfo {
  address : string;
  abi : list abiItem
}.

(** The calls the callback makes into the SDK, the wallet and the chain. *)
Inductive event : Type :=
| Encrypt (method : string) (value : Z)
| BuildParams
| SendTransaction (gasLimit : Z)
| WaitReceipt
| Refresh.

(** React state of the hook. *)
Record hookState : Type := mkHook {
  message : string;
  isProcessing : bool
}.

(** The state of the hook with the calls made so far. *)
Record world : Type := mkWorld {
  ui : hookState;
  log : list event
}.

(** A computation that has run as far as it can: it has finished, or it
    waits at an [await] with the state it left behind and what it does,
    on the state it finds, once the awaited promise has settled. *)
Inductive run (A : Type) : Type :=
| Finished (a : A) (w : world)
| Suspended (w : world) (k : world -> run A).
Arguments Finished {A} a w.
Arguments Suspended {A} w k.

Section WithSDK.

(** [EncryptResult], the argument list built for the call, and the
    transaction response. *)
Context {enc params tx : Type}.

(** What the render the callback belongs to took from the other hooks. *)
Record props : Type := mkProps {
  regisAirdrop : option contractInfo;
  instance : bool;
  ethersSigner : bool;
  ethersReadonlyProvider : bool
}.

(** How the SDK, the wallet and the chain answer. *)
Record env : Type := mkEnv {
  getEncryptionMethod : string -> outcome (option string);
  encryptWith : string -> Z -> outcome (option enc);
  buildParamsFromAbi : enc -> list abiItem -> outcome params;
  send_registerEmail : params -> Z -> outcome tx;
  wait : tx -> outcome unit;
  refreshMyEmailHandle : outcome unit
}.

Variable E : env.
Variable P : props.

(** *** Statements: state passing with abrupt completion and awaits *)

Definition M (A : Type) : Type := world -> run (completion A).

Definition pure {A} (a : A) : M A := fun w => Finished (Normal a) w.

(** What follows a statement, once it has completed normally. *)
Fixpoint then_ {A B} (r : run (completion A)) (k : A -> M B) : run (completion B) :=
  match r with
  | Finished (Normal a) w => k a w
  | Finished Return w => Finished Return w
  | Finished (Throw e) w => Finished (Throw e) w
  | Suspended w f => Suspended w (fun w' => then_ (f w') k)
  end.

Definition bind {A B} (m : M A) (k : A -> M B) : M B := fun w => then_ (m w) k.

Definition return_ {A} : M A := fun w => Finished Return w.

Definition setMessage (m : string) : M unit :=
  fun w => Finished (Normal tt)
             {| ui := {| message := m; isProcessing := isProcessing (ui w) |};
                log := log w |}.

Definition setIsProcessing (b : bool) : M unit :=
  fun w => Finished (Normal tt)
             {| ui := {| message := message (ui w); isProcessing := b |};
                log := log w |}.

(** The value or the exception of a call that has ended. *)
Definition ended {A} (o : outcome A) : M A :=
  fun w =>
    match o with
    | Fulfilled a => Finished (Normal a) w
    | Rejected e => Finished (Throw e) w
    end.

(** A call out of the hook that is not awaited: logged, then its value or
    its exception. *)
Definition call {A} (ev : event) (o : outcome A) : M A :=
  fun w => ended o {| ui := ui w; log := log w ++ [ev] |}.

(** [await] of a call out of the hook: the call is logged and the callback
    gives way; it goes on with the value or the exception on the state it
    finds when the promise has settled. *)
Definition await {A} (ev : event) (o : outcome A) : M A :=
  fun w => Suspended {| ui := ui w; log := log w ++ [ev] |} (ended o).

(** A call that is not logged (a pure helper that may throw). *)
Definition eval {A} (o : outcome A) : M A := ended o.

(** [try { body } catch (e) { handler e }] *)
Fixpoint catching (r : run (completion unit)) (handler : thrown -> M unit)
    : run (completion unit) :=
  match r with
  | Finished (Throw e) w => handler e w
  | Finished c w => Finished c w
  | Suspended w f => Suspended w (fun w' => catching (f w') handler)
  end.

(** The completion of a [try] statement whose block completed with [c],
    given how far its [finally] block has run. *)
Fixpoint after_finally (c : completion unit) (r : run (completion unit))
    : run (completion unit) :=
  match r with
  | Finished (Normal _) w => Finished c w
  | Finished c' w => Finished c' w
  | Suspended w f => Suspended w (fun w' => after_finally c (f w'))
  end.

(** [try { ... } finally { final }] *)
Fixpoint finally (r : run (completion unit)) (final : M unit)
    : run (completion unit) :=
  match r with
  | Finished c w => after_finally c (final w)
  | Suspended w f => Suspended w (fun w' => finally (f w') final)
  end.

(** [try { body } catch (e) { handler e } finally { final }] *)
Definition try_catch_finally (body : M unit) (handler : thrown -> M unit)
    (final : M unit) : M unit :=
  fun w => finally (catching (body w) handler) final.

(** How the promise of an [async] function settles. *)
Fixpoint settling (r : run (completion unit)) : run promise :=
  match r with
  | Finished (Throw e) w => Finished (RejectedWith e) w
  | Finished _ w => Finished Resolved w
  | Suspended w f => Suspended w (fun w' => settling (f w'))
  end.

(** The promise an [async] function returns. *)
Definition async (m : M unit) (w : world) : run promise := settling (m w).

(** The result of a computation that nothing interleaves with: every
    awaited promise settles before anything else touches the state. *)
Fixpoint settle {A} (r : run A) : A * world :=
  match r with
  | Finished a w => (a, w)
  | Suspended w k => settle (k w)
  end.

(** The results of a computation under interleaving: at every [await]
    the state may have become any other before the computation goes on. *)
Inductive settles {A} : run A -> A -> world -> Prop :=
| settles_finished a w : settles (Finished a w) a w
| settles_resumed w k w' a w'' :
    settles (k w') a w'' -> settles (Suspended w k) a w''.


#[local] Instance M_ret : MRet M := @pure.
#[local] Instance M_bind : MBind M := fun A B k m => bind m k.

(** *** The hook *)

(** [Boolean(s)] of a string. *)
Definition truthy (s : string) : bool := negb (String.eqb s "").

(** [Boolean(regisAirdrop?.address && regisAirdrop?.abi)]; an array is
    always truthy. *)
Definition hasContract : bool :=
  match regisAirdrop P with
  | Some info => truthy (address info)
  | None => false
  end.

Definition hasSigner : bool := ethersSigner P.

Definition hasProvider : bool := ethersReadonlyProvider P.

Inductive mode : Type := read | write.

(** [getContract(mode)]: the contract to call, when there is one. *)
Definition getContract (m : mode) : option contractInfo :=
  if negb hasContract then None
  else
    let providerOrSigner :=
      match m with read => ethersReadonlyProvider P | write => ethersSigner P end in
    if negb providerOrSigner then None else regisAirdrop P.

Definition canRegister (processing : bool) : bool :=
  hasContract && instance P && hasSigner && negb processing.

(** [getEncryptionMethodFor(functionName)]: the pair [{ method, error }]. *)
Definition getEncryptionMethodFor (functionName : string)
    : outcome (option string * option string) :=
  let functionAbi :=
    match regisAirdrop P with
    | Some info =>
        List.find (fun item => String.eqb (type item) "function"
                               && String.eqb (name item) functionName) (abi info)
    | None => None
    end in
  match functionAbi with
  | None => Fulfilled (None, Some ("Function ABI not found for " +:+ functionName))
  | Some f =>
      match inputs f with
      | None | Some [] =>
          Fulfilled (None, Some ("No inputs found for " +:+ functionName))
      | Some (firstInput :: _) =>
          match getEncryptionMethod E (internalType firstInput) with
          | Fulfilled method => Fulfilled (method, None)
          | Rejected e => Rejected e
          end
      end
  end.

(** [!method] for the [method] of [getEncryptionMethodFor]. *)
Definition usable (method : option string) : option string :=
  match method with
  | Some m => if truthy m then Some m else None
  | None => None
  end.

(** The guard of the callback: the call is dropped when it holds. *)
Definition dropped (processing : bool) (emailAsNumber : Z) : bool :=
  processing || negb (canRegister processing) || (emailAsNumber <=? 0).

(** The body of the [try] block. *)
Definition submit (emailAsNumber : Z) : M unit :=
  '(method, error) ← eval (getEncryptionMethodFor "registerEmail");
  match usable method with
  | None => setMessage (default "Encryption method not found" error);; return_
  | Some method =>
      enc ← await (Encrypt method emailAsNumber) (encryptWith E method emailAsNumber);
      match enc with
      | None => setMessage "Encryption failed";; return_
      | Some enc =>
          match getContract write with
          | None => setMessage "Signer not available";; return_
          | Some writeContract =>
              params ← call BuildParams (buildParamsFromAbi E enc (abi writeContract));
              tx ← await (SendTransaction 300000) (send_registerEmail E params 300000);
              setMessage "Waiting for confirmation...";;
              await WaitReceipt (wait E tx);;
              setMessage "Email registration updated!";;
              await Refresh (refreshMyEmailHandle E)
          end
      end
  end.

(** [registerEmail(emailAsNumber)] of a render: [processing] is the
    [isProcessing] the render has read from the state, which its
    [canRegister] and the callback have captured; the state the callback
    writes to is that of the hook, whatever it has become since. *)
Definition registerEmail (processing : bool) (emailAsNumber : Z) (w : world)
    : run promise :=
  async
    (if dropped processing emailAsNumber then return_
     else
       setIsProcessing true;;
       setMessage "Encrypting and registering email...";;
       try_catch_finally
         (submit emailAsNumber)
         (fun e => setMessage ("registerEmail() failed: " +:+ describe e))
         (setIsProcessing false))
    w.

(** The calls of a registration that goes through, in order. *)
Definition full_run (method : string) (emailAsNumber : Z) : list event :=
  [Encrypt method emailAsNumber; BuildParams; SendTransaction 300000;
   WaitReceipt; Refresh].

(** *** How a registration ends *)

(** The message of the [catch] block. *)
Definition failed (e : thrown) : string := "registerEmail() failed: " +:+ describe e.

(** [m] is the encryption method found for [registerEmail]. *)
Definition method_found (m : string) : Prop :=
  exists method error,
    getEncryptionMethodFor "registerEmail" = Fulfilled (method, error)
    /\ usable method = Some m.

(** What the libraries answer, with the message that is due and the calls
    out that are due, in order: one case for each way a registration can
    fail, and one for the registration that goes through. *)
Inductive ends_with (emailAsNumber : Z) : string -> list event -> Prop :=
| method_missing method error :
    getEncryptionMethodFor "registerEmail" = Fulfilled (method, error) ->
    usable method = None ->
    ends_with emailAsNumber (default "Encryption method not found" error) []
| method_throws e :
    getEncryptionMethodFor "registerEmail" = Rejected e ->
    ends_with emailAsNumber (failed e) []
| encryption_rejected m e :
    method_found m ->
    encryptWith E m emailAsNumber = Rejected e ->
    ends_with emailAsNumber (failed e) [Encrypt m emailAsNumber]
| encryption_empty m :
    method_found m ->
    encryptWith E m emailAsNumber = Fulfilled None ->
    ends_with emailAsNumber "Encryption failed" [Encrypt m emailAsNumber]
| signer_missing m enc0 :
    method_found m ->
    encryptWith E m emailAsNumber = Fulfilled (Some enc0) ->
    getContract write = None ->
    ends_with emailAsNumber "Signer not available" [Encrypt m emailAsNumber]
| build_throws m enc0 info e :
    method_found m ->
    encryptWith E m emailAsNumber = Fulfilled (Some enc0) ->
    getContract write = Some info ->
    buildParamsFromAbi E enc0 (abi info) = Rejected e ->
    ends_with emailAsNumber (failed e) [Encrypt m emailAsNumber; BuildParams]
| transaction_rejected m enc0 info params0 e :
    method_found m ->
    encryptWith E m emailAsNumber = Fulfilled (Some enc0) ->
    getContract write = Some info ->
    buildParamsFromAbi E enc0 (abi info) = Fulfilled params0 ->
    send_registerEmail E params0 300000 = Rejected e ->
    ends_with emailAsNumber (failed e)
      [Encrypt m emailAsNumber; BuildParams; SendTransaction 300000]
| receipt_rejected m enc0 info params0 tx0 e :
    method_found m ->
    encryptWith E m emailAsNumber = Fulfilled (Some enc0) ->
    getContract write = Some info ->
    buildParamsFromAbi E enc0 (abi info) = Fulfilled params0 ->
    send_registerEmail E params0 300000 = Fulfilled tx0 ->
    wait E tx0 = Rejected e ->
    ends_with emailAsNumber (failed e)
      [Encrypt m emailAsNumber; BuildParams; SendTransaction 300000; WaitReceipt]
| refresh_rejected m enc0 info params0 tx0 e :
    method_found m ->
    encryptWith E m emailAsNumber = Fulfilled (Some enc0) ->
    getContract write = Some info ->
    buildParamsFromAbi E enc0 (abi info) = Fulfilled params0 ->
    send_registerEmail E params0 300000 = Fulfilled tx0 ->
    wait E tx0 = Fulfilled tt ->
    refreshMyEmailHandle E = Rejected e ->
    ends_with emailAsNumber (failed e) (full_run m emailAsNumber)
| all_answered m enc0 info params0 tx0 :
    method_found m ->
    encryptWith E m emailAsNumber = Fulfilled (Some enc0) ->
    getContract write = Some info ->
    buildParamsFromAbi E enc0 (abi info) = Fulfilled params0 ->
    send_registerEmail E params0 300000 = Fulfilled tx0 ->
    wait E tx0 = Fulfilled tt ->
    refreshMyEmailHandle E = Fulfilled tt ->
    ends_with emailAsNumber "Email registration updated!" (full_run m emailAsNumber).

(** *** A session *)








End WithSDK.

Arguments env : clear implicits.


(** *** A connected session *)

(** The ABI entry of [registerEmail(externalEuint256, bytes)]. *)
Definition registerEmail_abi : abiItem :=
  {| type := "function"; name := "registerEmail";
     inputs := Some [mkInput "externalEuint256"; mkInput "bytes"] |}.

Definition deployment : contractInfo :=
  {| address := "0x00000000000000000000000000000000000000a1";
     abi := [ {| type := "function"; name := "getTotalRegistered"; inputs := Some [] |};
              registerEmail_abi ] |}.

Definition connected : props :=
  {| regisAirdrop := Some deployment; instance := true;
     ethersSigner := true; ethersReadonlyProvider := true |}.

(** Every call answers. *)
Definition answering : env unit unit unit :=
  {| getEncryptionMethod := fun _ => Fulfilled (Some "add256");
     encryptWith := fun _ _ => Fulfilled (Some tt);
     buildParamsFromAbi := fun _ _ => Fulfilled tt;
     send_registerEmail := fun _ _ => Fulfilled tt;
     wait := fun _ => Fulfilled tt;
     refreshMyEmailHandle := Fulfilled tt |}.

(** The transaction is rejected. *)
Definition rejecting : env unit unit unit :=
  {| getEncryptionMethod := fun _ => Fulfilled (Some "add256");
     encryptWith := fun _ _ => Fulfilled (Some tt);
     buildParamsFromAbi := fun _ _ => Fulfilled tt;
     send_registerEmail := fun _ _ => Rejected (ErrorObject "execution reverted");
     wait := fun _ => Fulfilled tt;
     refreshMyEmailHandle := Fulfilled tt |}.

Definition idle : world :=
  {| ui := {| message := ""; isProcessing := false |}; log := [] |}.


(** *** What the hook derives from the handle it reads *)

(** [ethers.ZeroHash], as the string a read of [encryptedEmailOf] gives. *)
Definition ZeroHash : string :=
  "0x0000000000000000000000000000000000000000000000000000000000000000".

(** An entry of the list of decryption requests. *)
Record request : Type := mkRequest {
  handle : string;
  contractAddress : string
}.

Section Derived.

Variable P : props.

(** [emailHandle]: the handle read from the contract, when the read has
    answered. *)
Variable emailHandle : option string.

(** [results] of the decryption hook: the cleartext found for a handle, an
    unsigned integer for a [euint256]. *)
Variable results : gmap string N.

(** [!emailHandle] *)
Definition noHandle : bool :=
  match emailHandle with
  | Some h => negb (truthy h)
  | None => true
  end.

Definition isRegistered : bool :=
  match emailHandle with
  | Some h =>
      if negb (truthy h) then false
      else if String.eqb h ZeroHash || String.eqb h "0x" || String.eqb h "0x0" then false
      else true
  | None => false
  end.

Definition requests : option (list request) :=
  match emailHandle, regisAirdrop P with
  | Some h, Some info =>
      if negb (hasContract P) || negb (truthy h) || String.eqb h ZeroHash then None
      else Some [ {| handle := h; contractAddress := address info |} ]
  | _, _ => None
  end.

(** [clearEmail]: the pair [{ handle, clear }]. *)
Definition clearEmail : option (string * N) :=
  match emailHandle with
  | Some h =>
      if negb (truthy h) then None
      else if String.eqb h ZeroHash then Some (h, 0%N)
      else
        match results !! h with
        | Some clear => Some (h, clear)
        | None => None
        end
  | None => None
  end.

Definition isDecrypted : bool :=
  match emailHandle with
  | Some h =>
      if negb (truthy h) then false
      else
        match results !! h with
        | Some val => negb (val =? 0)%N
        | None => false
        end
  | None => false
  end.

(** [clear: clearEmail?.clear] of the value the hook returns. *)
Definition clear : option N := snd <$> clearEmail.

End Derived.

End Hook.

(** ** The registration form *)

Module Component.
Import Stdlib.Strings.Ascii.
Import Hook.

(** *** Hexadecimal strings *)

(** The digit of a value below sixteen, in lower case. *)
Definition hexdigit (d : N) : ascii :=
  match d with
  | 0 => "0" | 1 => "1" | 2 => "2" | 3 => "3" | 4 => "4" | 5 => "5"
  | 6 => "6" | 7 => "7" | 8 => "8" | 9 => "9" | 10 => "a" | 11 => "b"
  | 12 => "c" | 13 => "d" | 14 => "e" | _ => "f"
  end%N%char.

(** The value of a hexadecimal digit, of either case. *)
Definition hexval (c : ascii) : option N :=
  let n := N_of_ascii c in
  if (48 <=? n)%N && (n <=? 57)%N then Some (n - 48)%N
  else if (97 <=? n)%N && (n <=? 102)%N then Some (n - 87)%N
  else if (65 <=? n)%N && (n <=? 70)%N then Some (n - 55)%N
  else None.

(** [buf.toString("hex")]: two digits for every byte. *)
Fixpoint toHex (buf : list Byte.byte) : string :=
  match buf with
  | [] => EmptyString
  | b :: buf' =>
      String (hexdigit (Byte.to_N b / 16))
        (String (hexdigit (Byte.to_N b mod 16)) (toHex buf'))
  end.

(** The number a string of hexadecimal digits stands for, after [acc]. *)
Fixpoint hexvalue (acc : N) (digits : string) : option N :=
  match digits with
  | EmptyString => Some acc
  | String c digits' =>
      match hexval c with
      | Some d => hexvalue (16 * acc + d) digits'
      | None => None
      end
  end.

(** [BigInt("0x" + digits)] for a string of hexadecimal digits; without
    digits it throws a [SyntaxError]. *)
Definition BigInt_0x (digits : string) : outcome N :=
  match digits with
  | EmptyString => Rejected (ErrorObject "Cannot convert 0x to a BigInt")
  | _ =>
      match hexvalue 0 digits with
      | Some n => Fulfilled n
      | None => Rejected (ErrorObject ("Cannot convert 0x" +:+ digits +:+ " to a BigInt"))
      end
  end.

(** The digits of [n] in base sixteen in front of [acc], at most [fuel]
    of them. *)
Fixpoint digits16 (fuel : nat) (n : N) (acc : string) : string :=
  match fuel with
  | O => acc
  | S fuel' =>
      let acc' := String (hexdigit (n mod 16)) acc in
      if (n / 16 =? 0)%N then acc' else digits16 fuel' (n / 16) acc'
  end.

(** [n.toString(16)] of a non-negative [bigint]: no leading zero, ["0"]
    for zero. A number of [k] bits has at most [k] digits. *)
Definition toString16 (n : N) : string :=
  digits16 (S (N.to_nat (N.size n))) n EmptyString.

(** [if (hex.length % 2) hex = "0" + hex] *)
Definition evenLength (hex : string) : string :=
  if (String.length hex mod 2 =? 0)%nat then hex else String "0"%char hex.

Definition byte_of_N (n : N) : Byte.byte := default Byte.x00 (Byte.of_N n).

(** [Buffer.from(hex, "hex")]: a byte for every pair of digits, up to the
    first pair that is not one, as Node decodes it; the form only passes
    strings of digits of even length. *)
Fixpoint fromHex (hex : string) : list Byte.byte :=
  match hex with
  | String c1 (String c2 hex') =>
      match hexval c1, hexval c2 with
      | Some hi, Some lo => byte_of_N (16 * hi + lo) :: fromHex hex'
      | _, _ => []
      end
  | _ => []
  end.

(** The number whose digits in base 256 are [buf], after [acc]. *)
Fixpoint bigEndian (acc : N) (buf : list Byte.byte) : N :=
  match buf with
  | [] => acc
  | b :: buf' => bigEndian (256 * acc + Byte.to_N b) buf'
  end.

(** *** The form *)

(** The bytes of [hexEmail] to the number that is registered:
    [BigInt("0x" + buf.toString("hex"))]. *)
Definition emailAsNumber (buf : list Byte.byte) : outcome N :=
  BigInt_0x (toHex buf).

(** The bytes the decrypted number is read back as. *)
Definition emailBytes (clear : N) : list Byte.byte :=
  fromHex (evenLength (toString16 clear)).

Section Form.

(** JavaScript strings, with the parts of the platform the form calls on
    them: the test of [emailRegex], [Buffer.from(s, "utf-8")] and
    [buf.toString("utf-8")]. *)
Context {jsstring : Type}.
Variable emailRegex_test : jsstring -> bool.
Variable utf8_bytes : jsstring -> list Byte.byte.
Variable utf8_string : list Byte.byte -> jsstring.

Context {enc params tx : Type}.
Variable E : env enc params tx.
Variable P : props.

(** React state of the component. *)
Record form : Type := mkForm {
  email : jsstring;
  submitted : bool;
  error : option string;
  decryptedEmail : option jsstring
}.

Definition setError (e : option string) (f : form) : form :=
  {| email := email f; submitted := submitted f; error := e;
     decryptedEmail := decryptedEmail f |}.

Definition setSubmitted (b : bool) (f : form) : form :=
  {| email := email f; submitted := b; error := error f;
     decryptedEmail := decryptedEmail f |}.

Definition setDecryptedEmail (d : option jsstring) (f : form) : form :=
  {| email := email f; submitted := submitted f; error := error f;
     decryptedEmail := d |}.

(** [e?.message ?? "Submission failed"] *)
Definition submissionError (e : thrown) : string :=
  match e with
  | ErrorObject m => m
  | OtherValue _ => "Submission failed"
  end.

(** [handleSubmit()] of a render, on the state of the form and of the
    hook: [processing] is the [isProcessing] the render has read, which
    the callback [regisTestnet.registerEmail] of that render has captured;
    the call is awaited. *)
Definition handleSubmit (processing : bool) (f : form) (w : world) : form * world :=
  if negb (emailRegex_test (email f)) then
    (setError (Some "Please enter a valid email") f, w)
  else
    let f := setError None f in
    match emailAsNumber (utf8_bytes (email f)) with
    | Rejected e => (setError (Some (submissionError e)) f, w)
    | Fulfilled n =>
        match settle (registerEmail E P processing (Z.of_N n) w) with
        | (Resolved, w') => (setSubmitted true f, w')
        | (RejectedWith e, w') => (setError (Some (submissionError e)) f, w')
        end
    end.

(** The effect on [isRegistered]. *)
Definition registeredEffect (isRegistered : bool) (f : form) : form :=
  if isRegistered then setSubmitted true f else f.

(** The effect that watches for the result of a decryption. *)
Definition decryptedEffect (isDecrypted : bool) (clear : option N) (f : form) : form :=
  match clear with
  | Some c =>
      if isDecrypted && negb (c =? 0)%N
      then setDecryptedEmail (Some (utf8_string (emailBytes c))) f
      else f
  | None => f
  end.

End Form.

(** *** An e-mail *)

(** The bytes of ["a@b.c"]. *)
Definition sample : list Byte.byte :=
  [Byte.x61; Byte.x40; Byte.x62; Byte.x2e; Byte.x63].

(** [Buffer.from(s, "utf-8")] and [buf.toString("utf-8")] on strings of
    ASCII characters. *)
Definition ascii_bytes (s : string) : list Byte.byte := String.list_byte_of_string s.

Definition ascii_string (buf : list Byte.byte) : string := String.string_of_list_byte buf.

End Component.

(** ** Properties of the contract *)

Module ContractSpec.
Import Contract.

Section Properties.

Variable this : address.
Variable fromExternal : address -> address -> externalEuint256 -> bytes -> option euint256.

Local Abbreviation registerEmail := (registerEmail this fromExternal).
Local Abbreviation transact := (transact this fromExternal).
Local Abbreviation run := (run this fromExternal).
Local Abbreviation step := (step this fromExternal).

(** What a committed call did to the storage. *)
Lemma registerEmail_commits a inp prf s s' :
  registerEmail a inp prf s = Some s' ->
  exists h,
    fromExternal this a inp prf = Some h
    /\ encryptedEmails s' = <[a := h]> (encryptedEmails s)
    /\ registered s' = <[a := true]> (registered s)
    /\ allowed s' = {[ (h, this) ]} ∪ ({[ (h, a) ]} ∪ allowed s)
    /\ totalRegistered s' =
         (if registered_at s a then totalRegistered s else totalRegistered s + 1).
Proof.
  unfold Contract.registerEmail, checked_incr. intros H.
  destruct (fromExternal this a inp prf) as [h|] eqn:Hh; [|discriminate].
  exists h. rewrite lookup_insert_eq in H. simpl in H.
  destruct (registered_at s a); simpl in H.
  - by inversion H.
  - case_decide; [|discriminate]. by inversion H.
Qed.

(** A repeated call reverts only when the input does not verify. *)
Lemma registerEmail_repeat a inp prf h s :
  registered_at s a = true ->
  fromExternal this a inp prf = Some h ->
  registerEmail a inp prf s
  = Some {| encryptedEmails := <[a := h]> (encryptedEmails s);
            registered := <[a := true]> (registered s);
            totalRegistered := totalRegistered s;
            allowed := {[ (h, this) ]} ∪ ({[ (h, a) ]} ∪ allowed s) |}.
Proof.
  intros Hreg Hh. unfold Contract.registerEmail.
  rewrite Hh, Hreg, lookup_insert_eq. reflexivity.
Qed.

Lemma transact_cases c s :
  transact c s = s
  \/ registerEmail (sender c) (encryptedEmail c) (zkProof c) s = Some (transact c s).
Proof.
  unfold Contract.transact.
  destruct (registerEmail _ _ _ s); simpl; auto.
Qed.

Lemma registered_at_insert s s' a b :
  registered s' = <[a := true]> (registered s) ->
  registered_at s' b = if decide (a = b) then true else registered_at s b.
Proof.
  intros H. unfold registered_at. rewrite H, lookup_insert.
  by case_decide.
Qed.

Lemma encryptedEmails_at_insert s s' a b h :
  encryptedEmails s' = <[a := h]> (encryptedEmails s) ->
  encryptedEmails_at s' b = if decide (a = b) then h else encryptedEmails_at s b.
Proof.
  intros H. unfold encryptedEmails_at. rewrite H, lookup_insert.
  by case_decide.
Qed.

(** The counter and the flags across one call, committed or not. *)
Lemma transact_monotone c s a :
  (registered_at s a = true -> registered_at (transact c s) a = true)
  /\ totalRegistered s <= totalRegistered (transact c s).
Proof.
  destruct (transact_cases c s) as [-> | H]; [split; [done | lia]|].
  apply registerEmail_commits in H as (h & _ & _ & Hr & _ & Ht).
  split.
  - intros Ha. rewrite (registered_at_insert _ _ _ a Hr). by case_decide.
  - rewrite Ht. destruct (registered_at s (sender c)); lia.
Qed.

(** A call by somebody else changes neither handle nor flag. *)
Lemma transact_frame c s b :
  sender c <> b ->
  encryptedEmails_at (transact c s) b = encryptedEmails_at s b
  /\ registered_at (transact c s) b = registered_at s b.
Proof.
  intros Hne.
  destruct (transact_cases c s) as [-> | H]; [done|].
  apply registerEmail_commits in H as (h & _ & He & Hr & _ & _).
  rewrite (registered_at_insert _ _ _ b Hr), (encryptedEmails_at_insert _ _ _ b _ He).
  by rewrite !decide_False.
Qed.

(** The counter counts the flags that are set: kept by every call. *)
Lemma count_registered_commits a inp prf s s' :
  registerEmail a inp prf s = Some s' ->
  totalRegistered s = Z.of_nat (count_registered s) ->
  totalRegistered s' = Z.of_nat (count_registered s').
Proof.
  intros H Hinv.
  apply registerEmail_commits in H as (h & _ & _ & Hr & _ & Ht).
  unfold count_registered, registered_at in *. rewrite Ht, Hr.
  destruct (registered s !! a) as [[|]|] eqn:Ha; simpl.
  - by rewrite insert_id.
  - rewrite map_filter_insert_True by done.
    rewrite map_size_insert_None; [lia|].
    apply map_lookup_filter_None. right. intros x Hx. simpl.
    rewrite Ha in Hx. by inversion Hx.
  - rewrite map_filter_insert_True by done.
    rewrite map_size_insert_None; [lia|].
    apply map_lookup_filter_None. left. done.
Qed.

Lemma allowed_transact c s : allowed s ⊆ allowed (transact c s).
Proof.
  destruct (transact_cases c s) as [-> | H]; [done|].
  apply registerEmail_commits in H as (h & _ & _ & _ & -> & _). set_solver.
Qed.

Lemma allowed_run tr s : allowed s ⊆ allowed (run s tr).
Proof.
  revert s. induction tr as [|c tr IH]; intros s; simpl; [done|].
  etrans; [apply (allowed_transact c)|apply IH].
Qed.

Lemma run_frame tr s b :
  b ∉ callers tr ->
  encryptedEmails_at (run s tr) b = encryptedEmails_at s b
  /\ registered_at (run s tr) b = registered_at s b.
Proof.
  revert s. induction tr as [|c tr IH]; intros s Hb; simpl; [done|].
  unfold callers in Hb. rewrite fmap_cons, not_elem_of_cons in Hb.
  destruct Hb as [Hc Hb].
  destruct (IH (transact c s) Hb) as [-> ->].
  apply transact_frame. congruence.
Qed.

Lemma userDecrypt_frame c b s cleartext v :
  sender c <> b ->
  userDecrypt cleartext s (encryptedEmails_at s b) this b = Some v ->
  userDecrypt cleartext (transact c s) (encryptedEmails_at (transact c s) b) this b
  = Some v.
Proof.
  intros Hne. destruct (transact_frame c s b Hne) as [-> _].
  unfold userDecrypt. pose proof (allowed_transact c s) as Hsub.
  destruct (decide _) as [[Hu Ht]|]; [|discriminate].
  rewrite decide_True; [done|]. split; by apply Hsub.
Qed.

Lemma step_transact s s' : step s s' -> exists c, s' = transact c s.
Proof.
  intros [c ? ? H]. exists c. unfold Contract.transact. by rewrite H.
Qed.

(** Every sequence of transactions is a sequence of steps: the reverted
    ones are not steps and change nothing. *)
Lemma run_steps tr s : rtc step s (run s tr).
Proof.
  revert s. induction tr as [|c tr IH]; intros s; simpl; [apply rtc_refl|].
  destruct (transact_cases c s) as [Heq | H].
  - rewrite Heq. apply IH.
  - eapply rtc_l; [exact (step_registerEmail _ _ c s _ H)|apply IH].
Qed.

(** *** What the contract guarantees *)

(** C1. For an address [a] that has registered, a further call by [a]
    commits exactly when its input verifies (being a repeat never makes
    it revert), and a committed call leaves the counter as it was and
    makes the handle stored for [a] the one just submitted. *)
Theorem registerEmail_again_overwrites a inp prf s :
  hasRegistered a s = true ->
  (is_Some (registerEmail a inp prf s) <-> is_Some (fromExternal this a inp prf))
  /\ (forall s', registerEmail a inp prf s = Some s' ->
        getTotalRegistered s' = getTotalRegistered s
        /\ fromExternal this a inp prf = Some (encryptedEmailOf a s')
        /\ hasRegistered a s' = true).
Proof.
  unfold hasRegistered, getTotalRegistered, encryptedEmailOf. intros Hreg. split.
  - split.
    + intros [s' H]. apply registerEmail_commits in H as (h & Hh & _). eauto.
    + intros [h Hh]. rewrite (registerEmail_repeat _ _ _ _ _ Hreg Hh). eauto.
  - intros s' H. apply registerEmail_commits in H as (h & Hh & He & Hr & _ & Ht).
    rewrite Hreg in Ht.
    rewrite (registered_at_insert _ _ _ a Hr), (encryptedEmails_at_insert _ _ _ a _ He).
    by rewrite !decide_True.
Qed.

(** C2. For an address [a] whose flag is not set, a committed call by
    [a] sets [hasRegistered(a)] and adds exactly one to the counter. *)
Theorem registerEmail_first_counts a inp prf s s' :
  hasRegistered a s = false ->
  registerEmail a inp prf s = Some s' ->
  hasRegistered a s' = true
  /\ getTotalRegistered s' = getTotalRegistered s + 1.
Proof.
  unfold hasRegistered, getTotalRegistered. intros Hreg H.
  apply registerEmail_commits in H as (h & _ & _ & Hr & _ & Ht).
  rewrite Hreg in Ht. rewrite (registered_at_insert _ _ _ a Hr).
  by rewrite decide_True.
Qed.

(** C3. After any sequence of [registerEmail] calls on the deployed
    contract, [totalRegistered] is the number of addresses whose
    [registered] flag is set. *)
Theorem totalRegistered_counts_registered tr :
  getTotalRegistered (run initial tr) = Z.of_nat (count_registered (run initial tr)).
Proof.
  unfold getTotalRegistered.
  assert (Hgen : forall s, totalRegistered s = Z.of_nat (count_registered s) ->
            totalRegistered (run s tr) = Z.of_nat (count_registered (run s tr))).
  { induction tr as [|c tr IH]; intros s Hs; simpl; [done|].
    apply IH. destruct (transact_cases c s) as [-> | H]; [done|].
    by apply (count_registered_commits _ _ _ _ _ H). }
  apply Hgen. reflexivity.
Qed.

(** C4. An address that never called [registerEmail] reads as not
    registered, and its handle reads as the zero handle. *)
Theorem never_called_reads_zero tr a :
  a ∉ callers tr ->
  hasRegistered a (run initial tr) = false
  /\ encryptedEmailOf a (run initial tr) = ZeroHash.
Proof.
  intros Ha. unfold hasRegistered, encryptedEmailOf.
  destruct (run_frame tr initial a Ha) as [-> ->]. done.
Qed.

(** C5. Along the steps of the contract a flag that is set stays set and
    the counter does not decrease. *)
Theorem flags_and_counter_monotone s s' :
  rtc step s s' ->
  (forall a, hasRegistered a s = true -> hasRegistered a s' = true)
  /\ getTotalRegistered s <= getTotalRegistered s'.
Proof.
  unfold hasRegistered, getTotalRegistered.
  induction 1 as [s | s s1 s2 Hstep _ [IHf IHc]]; [split; [done | lia]|].
  apply step_transact in Hstep as [c ->]. split.
  - intros a Ha. apply IHf. by apply transact_monotone.
  - pose proof (transact_monotone c s 0%N) as [_ Hle]. lia.
Qed.

(** C7. A call by [a], committed or reverted, leaves the handle and the
    flag of every other address [b] as they were, and what [b] decrypts
    from its own handle stays the same. *)
Theorem registerEmail_frame c b s :
  sender c <> b ->
  encryptedEmailOf b (transact c s) = encryptedEmailOf b s
  /\ hasRegistered b (transact c s) = hasRegistered b s
  /\ (forall cleartext v,
        userDecrypt cleartext s (encryptedEmailOf b s) this b = Some v ->
        userDecrypt cleartext (transact c s) (encryptedEmailOf b (transact c s)) this b
        = Some v).
Proof.
  intros Hne. unfold hasRegistered, encryptedEmailOf.
  destruct (transact_frame c s b Hne) as [He Hr].
  split; [done|]. split; [done|].
  intros cleartext v. by apply userDecrypt_frame.
Qed.

Section Decryption.

(** The SDK's encryption, and the cleartext the co-processor holds
    behind a handle. *)
Variable encrypt : address -> address -> Z -> externalEuint256 * bytes.
Variable cleartext : euint256 -> option Z.

Local Abbreviation submission := (submission this encrypt).
Local Abbreviation latest := (latest this fromExternal encrypt).

(** The SDK decrypts what it encrypted: the handle the contract gets
    for an encrypted input stands for the cleartext that was
    encrypted. *)
Hypothesis decrypt_encrypt : forall user v h,
  0 <= v <= MAX_UINT256 ->
  fromExternal this user (encrypt this user v).1 (encrypt this user v).2 = Some h ->
  cleartext h = Some v.

Lemma decrypt_after_submission a v s :
  0 <= v <= MAX_UINT256 ->
  succeeds this fromExternal (submission (a, v)) s = true ->
  let s' := transact (submission (a, v)) s in
  userDecrypt cleartext s' (encryptedEmailOf a s') this a = Some v.
Proof.
  intros Hv Hs. apply bool_decide_eq_true in Hs as [s1 H].
  simpl. unfold Contract.transact. rewrite H. simpl in *.
  apply registerEmail_commits in H as (h & Hh & He & _ & Hacl & _).
  unfold encryptedEmailOf.
  rewrite (encryptedEmails_at_insert _ _ _ a _ He), decide_True by done.
  unfold userDecrypt. rewrite Hacl, decide_True.
  - by apply (decrypt_encrypt a).
  - rewrite !elem_of_union, !elem_of_singleton. auto.
Qed.

Lemma latest_decrypts a subs : forall s acc v,
  Forall (fun sub => 0 <= sub.2 <= MAX_UINT256) subs ->
  (forall w, acc = Some w ->
     userDecrypt cleartext s (encryptedEmailOf a s) this a = Some w) ->
  latest a s subs acc = Some v ->
  let s' := run s (submission <$> subs) in
  userDecrypt cleartext s' (encryptedEmailOf a s') this a = Some v.
Proof.
  induction subs as [|[b x] subs IH]; intros s acc v Hr Hacc Hl; simpl in *.
  { by apply Hacc. }
  apply Forall_cons in Hr as [Hx Hr].
  apply (IH _ _ _ Hr) in Hl; [exact Hl|].
  intros w. destruct (bool_decide (b = a)) eqn:Hb; simpl.
  - apply bool_decide_eq_true in Hb as ->.
    destruct (succeeds _ _ _ s) eqn:Hs.
    + intros [= <-]. by apply decrypt_after_submission.
    + intros Hw. apply bool_decide_eq_false in Hs.
      unfold Contract.transact.
      destruct (Contract.registerEmail _ _ _ _ _ s) eqn:Hreg; [|by apply Hacc].
      exfalso. apply Hs. eauto.
  - apply bool_decide_eq_false in Hb. intros Hw.
    apply (userDecrypt_frame (submission (b, x)) a s _ _ Hb). by apply Hacc.
Qed.

(** C6. After any sequence of submissions to the deployed contract,
    each the encryption of a cleartext by its sender, decrypting the
    handle [encryptedEmailOf(a)] for [a] yields the cleartext of the
    last submission of [a] that committed. *)
Theorem decrypt_latest_submission a subs v :
  Forall (fun sub => 0 <= sub.2 <= MAX_UINT256) subs ->
  latest a initial subs None = Some v ->
  let s := run initial (submission <$> subs) in
  userDecrypt cleartext s (encryptedEmailOf a s) this a = Some v.
Proof.
  intros Hr Hl. apply (latest_decrypts a subs initial None v Hr); [|exact Hl].
  intros w [=].
Qed.

End Decryption.

(** *** Further properties of the contract *)

Lemma registered_at_run_committed tr : forall s a,
  registered_at (run s tr) a = registered_at s a || committed this fromExternal a s tr.
Proof.
  induction tr as [|c tr IH]; intros s a; simpl; [by rewrite orb_false_r|].
  rewrite IH. unfold Contract.succeeds, Contract.transact.
  destruct (Contract.registerEmail this fromExternal (sender c) (encryptedEmail c)
              (zkProof c) s) as [s1|] eqn:Hr; simpl.
  - rewrite andb_true_r.
    apply registerEmail_commits in Hr as (h & _ & _ & Hf & _ & _).
    rewrite (registered_at_insert _ _ _ a Hf).
    destruct (decide (sender c = a)).
    + rewrite bool_decide_true by done. simpl. by rewrite orb_true_r.
    + rewrite bool_decide_false by done. done.
  - by rewrite andb_false_r.
Qed.

(** X1. [registerEmail] reverts exactly when the input does not verify,
    or when the caller is new and the counter is already at its
    maximum. *)
Theorem registerEmail_reverts_iff a inp prf s :
  registerEmail a inp prf s = None
  <-> fromExternal this a inp prf = None
      \/ (hasRegistered a s = false /\ MAX_UINT256 <= getTotalRegistered s).
Proof.
  unfold Contract.registerEmail, hasRegistered, getTotalRegistered, checked_incr.
  destruct (fromExternal this a inp prf) as [h|]; [|by split; auto].
  destruct (registered_at s a); simpl.
  - split; [done|]. intros [|[? _]]; done.
  - case_decide; split; try done.
    + intros [|[_ ?]]; [done|lia].
    + intros _. right. split; [done|lia].
Qed.

(** X2. On the deployed contract [hasRegistered(a)] holds exactly when a
    call of [a] has committed. *)
Theorem hasRegistered_iff_committed tr a :
  hasRegistered a (run initial tr) = committed this fromExternal a initial tr.
Proof.
  unfold hasRegistered. by rewrite registered_at_run_committed.
Qed.

Local Abbreviation consistent := (consistent this).

Lemma consistent_initial : consistent initial.
Proof. intros a. split; [done|]. intros H. discriminate H. Qed.

Lemma consistent_transact c s : consistent s -> consistent (transact c s).
Proof.
  intros Hs. destruct (transact_cases c s) as [-> | H]; [done|].
  apply registerEmail_commits in H as (h & _ & He & Hf & Hacl & _).
  intros a. rewrite (registered_at_insert _ _ _ a Hf).
  rewrite (encryptedEmails_at_insert _ _ _ a _ He), He, Hacl, lookup_insert.
  destruct (Hs a) as [Hn Hy]. case_decide.
  - split; [done|]. intros _. rewrite !elem_of_union, !elem_of_singleton.
    subst a. auto.
  - split; [done|]. intros Ha. destruct (Hy Ha) as [? ?].
    rewrite !elem_of_union. auto.
Qed.

Lemma consistent_run tr : forall s, consistent s -> consistent (run s tr).
Proof.
  induction tr as [|c tr IH]; intros s Hs; simpl; [done|].
  by apply IH, consistent_transact.
Qed.

(** X3. On the deployed contract an address whose flag is not set reads
    the zero handle, whatever calls it has made. *)
Theorem unregistered_reads_zero tr a :
  hasRegistered a (run initial tr) = false ->
  encryptedEmailOf a (run initial tr) = ZeroHash.
Proof.
  unfold hasRegistered, encryptedEmailOf, encryptedEmails_at. intros H.
  destruct (consistent_run tr initial consistent_initial a) as [Hn _].
  by rewrite (Hn H).
Qed.

(** X4. On the deployed contract the handle stored for a registered
    address is allowed to that address and to the contract, so the owner's
    decryption request for it is served. *)
Theorem owner_can_decrypt tr a cleartext :
  hasRegistered a (run initial tr) = true ->
  let s := run initial tr in
  (encryptedEmailOf a s, a) ∈ allowed s
  /\ (encryptedEmailOf a s, this) ∈ allowed s
  /\ userDecrypt cleartext s (encryptedEmailOf a s) this a
     = cleartext (encryptedEmailOf a s).
Proof.
  unfold hasRegistered, encryptedEmailOf. intros H. simpl.
  destruct (consistent_run tr initial consistent_initial a) as [_ Hy].
  destruct (Hy H) as [Hu Ht]. split; [done|]. split; [done|].
  unfold userDecrypt. by rewrite decide_True.
Qed.

(** The counter counts the set flags after any trace. *)
Lemma counter_run tr : forall s,
  totalRegistered s = Z.of_nat (count_registered s) ->
  totalRegistered (run s tr) = Z.of_nat (count_registered (run s tr)).
Proof.
  induction tr as [|c tr IH]; intros s Hs; simpl; [done|].
  apply IH. destruct (transact_cases c s) as [-> | H]; [done|].
  by apply (count_registered_commits _ _ _ _ _ H).
Qed.

Lemma registered_dom_run tr : forall s,
  dom (registered (run s tr)) ⊆ dom (registered s) ∪ list_to_set (callers tr).
Proof.
  induction tr as [|c tr IH]; intros s; simpl; [set_solver|].
  etrans; [apply IH|].
  destruct (transact_cases c s) as [-> | H]; [set_solver|].
  apply registerEmail_commits in H as (h & _ & _ & -> & _ & _).
  rewrite dom_insert. set_solver.
Qed.

(** X5. On the deployed contract the counter is never negative and never
    more than the number of distinct accounts that have called. *)
Theorem counter_at_most_callers tr :
  0 <= getTotalRegistered (run initial tr)
       <= Z.of_nat (size (list_to_set (callers tr) : gset address)).
Proof.
  unfold getTotalRegistered.
  rewrite (counter_run tr initial) by reflexivity.
  split; [lia|]. apply inj_le. unfold count_registered.
  etrans; [apply map_subseteq_size, map_filter_subseteq|].
  rewrite <- size_dom. apply subseteq_size.
  etrans; [apply registered_dom_run|]. simpl. rewrite dom_empty. set_solver.
Qed.

Lemma counter_step_bound c s :
  totalRegistered (transact c s) <= totalRegistered s + 1.
Proof.
  destruct (transact_cases c s) as [-> | H]; [lia|].
  apply registerEmail_commits in H as (h & _ & _ & _ & _ & ->).
  destruct (registered_at s (sender c)); lia.
Qed.

Lemma counter_run_bound tr : forall s,
  totalRegistered (run s tr) <= totalRegistered s + Z.of_nat (length tr).
Proof.
  induction tr as [|c tr IH]; intros s; simpl length; simpl run; [lia|].
  pose proof (IH (transact c s)). pose proof (counter_step_bound c s). lia.
Qed.

(** X6. After fewer than [2^256 - 1] calls the counter cannot be what
    makes a call revert: on the deployed contract a call commits exactly
    when its input verifies. *)
Theorem registerEmail_commits_iff_verified tr a inp prf :
  Z.of_nat (length tr) < MAX_UINT256 ->
  is_Some (registerEmail a inp prf (run initial tr))
  <-> is_Some (fromExternal this a inp prf).
Proof.
  intros Hlen. pose proof (counter_run_bound tr initial) as Hb. simpl in Hb.
  unfold Contract.registerEmail, checked_incr.
  destruct (fromExternal this a inp prf) as [h|]; [|done].
  split; [eauto|]. intros _.
  destruct (registered_at _ a); simpl; [eauto|].
  rewrite decide_True by lia. eauto.
Qed.

(** X7. Sending the same call twice leaves the storage as sending it
    once. *)
Theorem transact_idempotent c s :
  transact c (transact c s) = transact c s.
Proof.
  destruct (transact_cases c s) as [Heq | H]; [by rewrite !Heq|].
  pose proof H as H'.
  apply registerEmail_commits in H' as (h & Hh & He & Hf & Hacl & Ht).
  assert (Hreg : registered_at (transact c s) (sender c) = true).
  { rewrite (registered_at_insert _ _ _ (sender c) Hf). by rewrite decide_True. }
  unfold Contract.transact at 1.
  rewrite (registerEmail_repeat _ _ _ _ _ Hreg Hh). simpl.
  destruct (transact c s) as [em fl tot acl]; simpl in *. subst.
  f_equal.
  - apply insert_insert_eq.
  - apply insert_insert_eq.
  - apply leibniz_equiv. set_solver.
Qed.

(** X8. Calls of two different accounts can be made in either order, as
    long as the counter has room for both. *)
Theorem transact_commute c1 c2 s :
  sender c1 <> sender c2 ->
  totalRegistered s + 2 <= MAX_UINT256 ->
  transact c1 (transact c2 s) = transact c2 (transact c1 s).
Proof.
  intros Hne Hroom. pose proof (not_eq_sym Hne) as Hne'.
  unfold Contract.transact, Contract.registerEmail, checked_incr, registered_at.
  destruct (fromExternal this (sender c1) _ _) as [h1|],
           (fromExternal this (sender c2) _ _) as [h2|];
    destruct (registered s !! sender c1) as [[|]|] eqn:H1,
             (registered s !! sender c2) as [[|]|] eqn:H2;
    simpl;
    repeat (first [ rewrite lookup_insert_eq | rewrite lookup_insert_ne by done
                  | rewrite H1 | rewrite H2 | rewrite decide_True by lia ];
            simpl);
    try reflexivity;
    (f_equal;
     first [ by apply insert_insert_ne | lia | apply leibniz_equiv; set_solver ]).
Qed.

(** X9. A permission, once granted, is never taken back: what an account
    could decrypt before a sequence of calls it can decrypt after it, also
    the handles that have been overwritten since. *)
Theorem permissions_never_revoked tr s h user cleartext v :
  userDecrypt cleartext s h this user = Some v ->
  userDecrypt cleartext (run s tr) h this user = Some v.
Proof.
  unfold userDecrypt. pose proof (allowed_run tr s) as Hsub.
  destruct (decide _) as [[Hu Ht]|]; [|discriminate].
  intros Hv. rewrite decide_True; [done|]. split; by apply Hsub.
Qed.

End Properties.

(** *** The scenarios of the test-suite *)

Local Abbreviation deployed := (run contractAddress mock_fromExternal initial).
Local Abbreviation submits := (submission contractAddress mock_encrypt).

(** Alice registers 1111, then 2222: the second call commits, the counter
    stays at one and the handle is the second one. *)
Lemma registerEmail_again_overwrites_witness :
  hasRegistered alice (deployed [submits (alice, 1111)]) = true
  /\ (is_Some (registerEmail contractAddress mock_fromExternal alice 2222%N []
                (deployed [submits (alice, 1111)]))
       <-> is_Some (mock_fromExternal contractAddress alice 2222%N []))
  /\ (forall s',
        registerEmail contractAddress mock_fromExternal alice 2222%N []
          (deployed [submits (alice, 1111)]) = Some s' ->
        getTotalRegistered s' = getTotalRegistered (deployed [submits (alice, 1111)])
        /\ mock_fromExternal contractAddress alice 2222%N [] = Some (encryptedEmailOf alice s')
        /\ hasRegistered alice s' = true).
Proof.
  split; [reflexivity|].
  apply (registerEmail_again_overwrites contractAddress mock_fromExternal alice 2222%N []).
  reflexivity.
Defined.

(** Alice's first registration on the fresh contract. *)
Lemma registerEmail_first_counts_witness :
  hasRegistered alice initial = false
  /\ hasRegistered alice (deployed [submits (alice, 123456789)]) = true
  /\ getTotalRegistered (deployed [submits (alice, 123456789)])
     = getTotalRegistered initial + 1.
Proof.
  split; [reflexivity|].
  apply (registerEmail_first_counts contractAddress mock_fromExternal
           alice 123456789%N [] initial); reflexivity.
Defined.

(** Alice registers, Bob never calls. *)
Lemma never_called_reads_zero_witness :
  (bob ∉ callers [submits (alice, 5555)])
  /\ hasRegistered bob (deployed [submits (alice, 5555)]) = false
  /\ encryptedEmailOf bob (deployed [submits (alice, 5555)]) = ZeroHash.
Proof.
  assert (H : bob ∉ callers [submits (alice, 5555)]).
  { intros H. apply list_elem_of_singleton in H. discriminate H. }
  split; [exact H|].
  exact (never_called_reads_zero contractAddress mock_fromExternal _ bob H).
Defined.

(** Alice then Bob register: two steps from the fresh contract. *)
Lemma flags_and_counter_monotone_witness :
  rtc (step contractAddress mock_fromExternal) initial
    (deployed [submits (alice, 5555); submits (bob, 9999)])
  /\ (forall a, hasRegistered a initial = true ->
        hasRegistered a (deployed [submits (alice, 5555); submits (bob, 9999)]) = true)
  /\ getTotalRegistered initial
     <= getTotalRegistered (deployed [submits (alice, 5555); submits (bob, 9999)]).
Proof.
  assert (H : rtc (step contractAddress mock_fromExternal) initial
                (deployed [submits (alice, 5555); submits (bob, 9999)])).
  { eapply rtc_l; [apply (step_registerEmail _ _ (submits (alice, 5555))); reflexivity|].
    eapply rtc_l; [apply (step_registerEmail _ _ (submits (bob, 9999))); reflexivity|].
    apply rtc_refl. }
  split; [exact H|].
  exact (flags_and_counter_monotone contractAddress mock_fromExternal _ _ H).
Defined.

(** Bob registers 9999, then Alice registers: Bob's handle, flag and
    decryption are as before. *)
Lemma registerEmail_frame_witness :
  sender (submits (alice, 5555)) <> bob
  /\ encryptedEmailOf bob (deployed [submits (bob, 9999); submits (alice, 5555)]) = 9999%N
  /\ hasRegistered bob (deployed [submits (bob, 9999); submits (alice, 5555)]) = true
  /\ userDecrypt mock_cleartext (deployed [submits (bob, 9999); submits (alice, 5555)])
       (encryptedEmailOf bob (deployed [submits (bob, 9999); submits (alice, 5555)]))
       contractAddress bob = Some 9999.
Proof.
  assert (H : sender (submits (alice, 5555)) <> bob) by discriminate.
  split; [exact H|].
  destruct (registerEmail_frame contractAddress mock_fromExternal
              (submits (alice, 5555)) bob (deployed [submits (bob, 9999)]) H)
    as (He & Hr & Hd).
  split; [exact He|]. split; [exact Hr|].
  apply (Hd mock_cleartext 9999). reflexivity.
Defined.

(** The scenario of the specification: X registers 123456789 and then
    555; decryption yields 555. *)
Lemma decrypt_latest_submission_witness :
  Forall (fun sub : address * Z => 0 <= sub.2 <= MAX_UINT256)
    [(alice, 123456789); (alice, 555)]
  /\ latest contractAddress mock_fromExternal mock_encrypt alice initial
       [(alice, 123456789); (alice, 555)] None = Some 555
  /\ userDecrypt mock_cleartext
       (deployed (submits <$> [(alice, 123456789); (alice, 555)]))
       (encryptedEmailOf alice (deployed (submits <$> [(alice, 123456789); (alice, 555)])))
       contractAddress alice = Some 555.
Proof.
  assert (Hr : Forall (fun sub : address * Z => 0 <= sub.2 <= MAX_UINT256)
                 [(alice, 123456789); (alice, 555)]).
  { repeat constructor; simpl; unfold MAX_UINT256; lia. }
  split; [exact Hr|]. split; [reflexivity|].
  apply (decrypt_latest_submission contractAddress mock_fromExternal
           mock_encrypt mock_cleartext); [|exact Hr|reflexivity].
  intros user v h Hv [= <-]. unfold mock_cleartext. simpl.
  rewrite Z2N.id by lia. reflexivity.
Defined.

(** Bob has not registered when Alice has. *)
Lemma unregistered_reads_zero_witness :
  hasRegistered bob (deployed [submits (alice, 5555)]) = false
  /\ encryptedEmailOf bob (deployed [submits (alice, 5555)]) = ZeroHash.
Proof.
  split; [reflexivity|].
  apply (unregistered_reads_zero contractAddress mock_fromExternal
           [submits (alice, 5555)] bob).
  reflexivity.
Defined.

(** Alice, registered with 5555, decrypts her handle. *)
Lemma owner_can_decrypt_witness :
  hasRegistered alice (deployed [submits (alice, 5555)]) = true
  /\ (encryptedEmailOf alice (deployed [submits (alice, 5555)]), alice)
       ∈ allowed (deployed [submits (alice, 5555)])
  /\ (encryptedEmailOf alice (deployed [submits (alice, 5555)]), contractAddress)
       ∈ allowed (deployed [submits (alice, 5555)])
  /\ userDecrypt mock_cleartext (deployed [submits (alice, 5555)])
       (encryptedEmailOf alice (deployed [submits (alice, 5555)])) contractAddress alice
     = mock_cleartext (encryptedEmailOf alice (deployed [submits (alice, 5555)])).
Proof.
  split; [reflexivity|].
  apply (owner_can_decrypt contractAddress mock_fromExternal
           [submits (alice, 5555)] alice mock_cleartext).
  reflexivity.
Defined.

(** After Alice's registration Bob's call commits. *)
Lemma registerEmail_commits_iff_verified_witness :
  (Z.of_nat (length [submits (alice, 5555)]) < MAX_UINT256)
  /\ (is_Some (registerEmail contractAddress mock_fromExternal bob 9999%N []
                (deployed [submits (alice, 5555)]))
       <-> is_Some (mock_fromExternal contractAddress bob 9999%N [])).
Proof.
  assert (H : Z.of_nat (length [submits (alice, 5555)]) < MAX_UINT256).
  { unfold MAX_UINT256. simpl. lia. }
  split; [exact H|].
  exact (registerEmail_commits_iff_verified contractAddress mock_fromExternal
           [submits (alice, 5555)] bob 9999%N [] H).
Defined.

(** Alice and Bob on the fresh contract, in either order. *)
Lemma transact_commute_witness :
  sender (submits (alice, 5555)) <> sender (submits (bob, 9999))
  /\ totalRegistered initial + 2 <= MAX_UINT256
  /\ transact contractAddress mock_fromExternal (submits (alice, 5555))
       (transact contractAddress mock_fromExternal (submits (bob, 9999)) initial)
     = transact contractAddress mock_fromExternal (submits (bob, 9999))
         (transact contractAddress mock_fromExternal (submits (alice, 5555)) initial).
Proof.
  assert (Hne : sender (submits (alice, 5555)) <> sender (submits (bob, 9999)))
    by discriminate.
  assert (Hroom : totalRegistered initial + 2 <= MAX_UINT256).
  { unfold MAX_UINT256. simpl. lia. }
  split; [exact Hne|]. split; [exact Hroom|].
  exact (transact_commute contractAddress mock_fromExternal _ _ initial Hne Hroom).
Defined.

(** Alice still decrypts 1111 after she has registered 2222. *)
Lemma permissions_never_revoked_witness :
  userDecrypt mock_cleartext (deployed [submits (alice, 1111)]) 1111%N
    contractAddress alice = Some 1111
  /\ userDecrypt mock_cleartext
       (run contractAddress mock_fromExternal (deployed [submits (alice, 1111)])
          [submits (alice, 2222)])
       1111%N contractAddress alice = Some 1111.
Proof.
  split; [reflexivity|].
  apply (permissions_never_revoked contractAddress mock_fromExternal
           [submits (alice, 2222)] (deployed [submits (alice, 1111)])).
  reflexivity.
Defined.

End ContractSpec.

(** ** Properties of the client hook *)

Module HookSpec.
Import Hook.

(** Unfolds the statements of the callback down to matches on what the
    libraries answer. *)
Ltac unfold_statements :=
  cbv beta iota delta
    [registerEmail submit async try_catch_finally mbind M_bind bind pure
     return_ setMessage setIsProcessing call await eval ended];
  simpl.

(** Rewrites with the answers of the libraries that are at hand. *)
Ltac answer :=
  repeat (match goal with
          | H : _ = Fulfilled _ |- _ => rewrite H
          | H : _ = Rejected _ |- _ => rewrite H
          | H : usable _ = _ |- _ => rewrite H
          | H : getContract _ _ = _ |- _ => rewrite H
          end; simpl).

(** Follows a computation through its awaits, whatever state it finds. *)
Ltac resume :=
  repeat match goal with
         | H : settles (Suspended _ _) _ _ |- _ =>
             inversion H; subst; clear H; simpl in *
         | H : settles (Finished _ _) _ _ |- _ =>
             inversion H; subst; clear H; simpl in *
         end.

Section Properties.

Context {enc params tx : Type}.
Variable E : env enc params tx.
Variable P : props.

Lemma settles_settle {A} (r : run A) : settles r (settle r).1 (settle r).2.
Proof.
  induction r as [a w|w k IH]; simpl; [constructor|].
  eapply settles_resumed. apply IH.
Qed.

(** A dropped call does nothing. *)
Lemma registerEmail_dropped processing emailAsNumber w :
  dropped P processing emailAsNumber = true ->
  registerEmail E P processing emailAsNumber w = Finished Resolved w.
Proof.
  intros H. unfold registerEmail. rewrite H. reflexivity.
Qed.


Lemma string_app_cons c (s1 s2 : string) :
  (String c s1 +:+ s2 = String c (s1 +:+ s2))%string.
Proof. reflexivity. Qed.

(** The reports of [getEncryptionMethodFor]. *)
Lemma getEncryptionMethodFor_cases method error :
  getEncryptionMethodFor E P "registerEmail" = Fulfilled (method, error) ->
  error = None
  \/ (method = None /\ error = Some "Function ABI not found for registerEmail")
  \/ (method = None /\ error = Some "No inputs found for registerEmail").
Proof.
  unfold getEncryptionMethodFor. intros H.
  repeat case_match; simplify_eq; auto.
Qed.

(** Past the guard there is a contract to write to. *)
Lemma getContract_write_running processing emailAsNumber :
  dropped P processing emailAsNumber = false ->
  exists info, regisAirdrop P = Some info /\ getContract P write = Some info.
Proof.
  unfold dropped, canRegister, getContract, hasSigner, hasContract.
  intros H. destruct (regisAirdrop P) as [info|]; simpl in *.
  - exists info. split; [done|].
    destruct (truthy (address info)), (ethersSigner P), (instance P), processing;
      simpl in *; done.
  - by rewrite orb_true_r in H.
Qed.

(** The answers of the libraries fall under one of the cases. *)
Lemma ends_with_total emailAsNumber :
  exists m calls, ends_with E P emailAsNumber m calls.
Proof.
  destruct (getEncryptionMethodFor E P "registerEmail") as [[method error]|e] eqn:Hm;
    [|eauto using @ends_with].
  destruct (usable method) as [m|] eqn:Hu; [|eauto using @ends_with].
  assert (Hf : method_found E P m) by (exists method, error; done).
  destruct (encryptWith E m emailAsNumber) as [[enc0|]|e] eqn:He;
    [|eauto using @ends_with..].
  destruct (getContract P write) as [info|] eqn:Hc; [|eauto using @ends_with].
  destruct (buildParamsFromAbi E enc0 (abi info)) as [params0|e] eqn:Hb;
    [|eauto using @ends_with].
  destruct (send_registerEmail E params0 300000) as [tx0|e] eqn:Hs;
    [|eauto using @ends_with].
  destruct (wait E tx0) as [[]|e] eqn:Hw; [|eauto using @ends_with].
  destruct (refreshMyEmailHandle E) as [[]|e] eqn:Hr; eauto using @ends_with.
Qed.

(** What a registration that is not dropped does, case by case: on its
    own, and whatever the state has become at each of its awaits. *)
Lemma registerEmail_ends processing emailAsNumber w m calls :
  dropped P processing emailAsNumber = false ->
  ends_with E P emailAsNumber m calls ->
  settle (registerEmail E P processing emailAsNumber w)
  = (Resolved, {| ui := {| message := m; isProcessing := false |};
                  log := log w ++ calls |})
  /\ (forall p w', settles (registerEmail E P processing emailAsNumber w) p w' ->
        p = Resolved
        /\ isProcessing (ui w') = false
        /\ (m <> "Email registration updated!" -> message (ui w') = m)).
Proof.
  intros Hd Hends. unfold registerEmail. rewrite Hd.
  destruct Hends;
    repeat match goal with
           | H : method_found _ _ _ |- _ => destruct H as (? & ? & ? & ?)
           end;
    unfold_statements; answer;
    (split;
     [ rewrite <- ?app_assoc, ?app_nil_r; reflexivity
     | intros p w' Hs; resume; done ]).
Qed.

(** The promise of [registerEmail] resolves. *)
Lemma registerEmail_resolves processing emailAsNumber w :
  (settle (registerEmail E P processing emailAsNumber w)).1 = Resolved.
Proof.
  destruct (dropped P processing emailAsNumber) eqn:Hd.
  - by rewrite registerEmail_dropped.
  - destruct (ends_with_total emailAsNumber) as (m & calls & Hends).
    by rewrite (proj1 (registerEmail_ends processing emailAsNumber w m calls Hd Hends)).
Qed.







(** C10. For [emailAsNumber <= 0] a call of [registerEmail] returns at
    once: the promise resolves, no call out is made, and neither the
    message nor [isProcessing] is written. *)
Theorem registerEmail_nonpositive processing emailAsNumber w :
  emailAsNumber <= 0 ->
  registerEmail E P processing emailAsNumber w = Finished Resolved w.
Proof.
  intros H. apply registerEmail_dropped. unfold dropped.
  apply Z.leb_le in H. rewrite H. by rewrite orb_true_r.
Qed.

(** *** Further properties of the hook *)

(** X10. [registerEmail] runs exactly when [canRegister] holds and the
    number is positive. *)
Theorem dropped_iff_cannot_register processing emailAsNumber :
  dropped P processing emailAsNumber = false
  <-> canRegister P processing = true /\ 0 < emailAsNumber.
Proof.
  unfold dropped, canRegister.
  destruct processing, (hasContract P), (instance P), (hasSigner P); simpl;
    destruct (Z.leb_spec emailAsNumber 0); split; try done; try lia;
    intros [? ?]; try done; lia.
Qed.

(** X11. Past the guard the callback never ends on the message that the
    signer is not available: the guard has checked the signer. *)
Theorem signer_checked_by_guard processing emailAsNumber w :
  dropped P processing emailAsNumber = false ->
  message (ui (settle (registerEmail E P processing emailAsNumber w)).2)
  <> "Signer not available".
Proof.
  intros Hd. destruct (getContract_write_running _ _ Hd) as (info & _ & Hc).
  destruct (ends_with_total emailAsNumber) as (m & calls & Hends).
  rewrite (proj1 (registerEmail_ends processing emailAsNumber w m calls Hd Hends)).
  simpl. destruct Hends as [method error Hm Hu| | | | | | | | |];
    try (unfold failed; by rewrite string_app_cons); try done.
  - destruct (getEncryptionMethodFor_cases _ _ Hm) as [->|[[-> ->]|[-> ->]]]; done.
  - congruence.
Qed.


(** X13. Past the guard the callback ends on the message of success
    exactly when every call out has answered: the method is found, the
    number is encrypted, the arguments are built, the transaction is sent
    and confirmed, and the handle is read again. *)
Theorem success_iff_all_answer processing emailAsNumber w :
  dropped P processing emailAsNumber = false ->
  message (ui (settle (registerEmail E P processing emailAsNumber w)).2)
  = "Email registration updated!"
  <-> exists method error m enc0 info params0 tx0,
        getEncryptionMethodFor E P "registerEmail" = Fulfilled (method, error)
        /\ usable method = Some m
        /\ encryptWith E m emailAsNumber = Fulfilled (Some enc0)
        /\ regisAirdrop P = Some info
        /\ buildParamsFromAbi E enc0 (abi info) = Fulfilled params0
        /\ send_registerEmail E params0 300000 = Fulfilled tx0
        /\ wait E tx0 = Fulfilled tt
        /\ refreshMyEmailHandle E = Fulfilled tt.
Proof.
  intros Hd. destruct (getContract_write_running _ _ Hd) as (info & Hi & Hc). split.
  - destruct (ends_with_total emailAsNumber) as (m & calls & Hends).
    rewrite (proj1 (registerEmail_ends processing emailAsNumber w m calls Hd Hends)).
    simpl. destruct Hends as [method error Hm Hu| | | | | | | | |];
      try (unfold failed; by rewrite string_app_cons); try done.
    + destruct (getEncryptionMethodFor_cases _ _ Hm) as [->|[[-> ->]|[-> ->]]]; done.
    + intros _.
      match goal with H : method_found _ _ _ |- _ => destruct H as (method & error & Hm & Hu) end.
      match goal with
      | H : getContract P write = Some _ |- _ => rewrite Hc in H; injection H as <-
      end.
      exists method, error, m, enc0, info, params0, tx0. done.
  - intros (method & error & m & enc0 & info' & params0 & tx0
            & Hm & Hu & He & Hi' & Hb & Hs & Hw & Hr).
    rewrite Hi in Hi'. injection Hi' as <-.
    assert (Hends : ends_with E P emailAsNumber "Email registration updated!"
                      (full_run m emailAsNumber)).
    { eapply all_answered; eauto. exists method, error. done. }
    by rewrite (proj1 (registerEmail_ends processing emailAsNumber w _ _ Hd Hends)).
Qed.

(** X24. [getEncryptionMethodFor] goes by the first entry of the ABI
    that is a function of the name asked for: the method is the one of
    the internal type of its first input, whatever entries follow. *)
Theorem getEncryptionMethodFor_first_match info before item after functionName :
  regisAirdrop P = Some info ->
  abi info = before ++ item :: after ->
  Forall (fun i => type i <> "function" \/ name i <> functionName) before ->
  type item = "function" ->
  name item = functionName ->
  getEncryptionMethodFor E P functionName
  = match inputs item with
    | None | Some [] =>
        Fulfilled (None, Some ("No inputs found for " +:+ functionName))
    | Some (firstInput :: _) =>
        match getEncryptionMethod E (internalType firstInput) with
        | Fulfilled method => Fulfilled (method, None)
        | Rejected e => Rejected e
        end
    end.
Proof.
  intros Hi Habi Hb Ht Hn. unfold getEncryptionMethodFor. rewrite Hi, Habi.
  assert (Hfind : List.find
            (fun i => String.eqb (type i) "function" && String.eqb (name i) functionName)
            (before ++ item :: after) = Some item).
  { clear Habi. induction Hb as [|i before Hor _ IH]; simpl.
    - by rewrite Ht, Hn, !String.eqb_refl.
    - destruct Hor as [Hor|Hor]; apply String.eqb_neq in Hor; rewrite Hor; simpl;
        [done|by rewrite andb_false_r]. }
  by rewrite Hfind.
Qed.

End Properties.

(** X14. A handle that counts as registered is one a decryption is
    requested for, once the contract is known. *)
Theorem registered_handle_is_requested (P : props) (emailHandle : option string) :
  isRegistered emailHandle = true ->
  hasContract P = true ->
  exists h info,
    emailHandle = Some h
    /\ regisAirdrop P = Some info
    /\ requests P emailHandle = Some [ {| handle := h; contractAddress := address info |} ].
Proof.
  unfold isRegistered, requests. intros Hr Hc.
  destruct emailHandle as [h|]; [|done].
  assert (Hi : exists info, regisAirdrop P = Some info).
  { unfold hasContract in Hc. destruct (regisAirdrop P); [eauto|done]. }
  destruct Hi as [info Hi]. exists h, info. rewrite Hi, Hc.
  destruct (truthy h); simpl in *; [|done].
  destruct (String.eqb h ZeroHash); simpl in *; done.
Qed.

(** *** Scenarios on a connected session *)




(** Zero and a negative number on an idle session. *)
Lemma registerEmail_nonpositive_witness :
  (0 <= 0 /\ registerEmail answering connected false 0 idle = Finished Resolved idle)
  /\ (-5 <= 0 /\ registerEmail answering connected false (-5) idle = Finished Resolved idle).
Proof.
  split; (split; [lia | apply registerEmail_nonpositive; lia]).
Defined.

(** The rejected transaction does not end on the message about the
    signer. *)
Lemma signer_checked_by_guard_witness :
  dropped connected false 555 = false
  /\ message (ui (settle (registerEmail rejecting connected false 555 idle)).2)
     <> "Signer not available".
Proof.
  split; [reflexivity|].
  apply (signer_checked_by_guard rejecting connected false 555 idle). reflexivity.
Defined.


(** The registration that goes through ends on the message of success. *)
Lemma success_iff_all_answer_witness :
  dropped connected false 555 = false
  /\ message (ui (settle (registerEmail answering connected false 555 idle)).2)
     = "Email registration updated!".
Proof.
  split; [reflexivity|].
  apply (success_iff_all_answer answering connected false 555 idle eq_refl).
  exists (Some "add256"), None, "add256", tt, deployment, tt, tt.
  repeat split.
Defined.

(** A handle read for a registered account. *)
Lemma registered_handle_is_requested_witness :
  isRegistered (Some "0x01") = true
  /\ hasContract connected = true
  /\ exists h info,
       Some "0x01" = Some h
       /\ regisAirdrop connected = Some info
       /\ requests connected (Some "0x01")
          = Some [ {| handle := h; contractAddress := address info |} ].
Proof.
  split; [reflexivity|]. split; [reflexivity|].
  apply (registered_handle_is_requested connected (Some "0x01")); reflexivity.
Defined.

(** The entry of [registerEmail] in the deployment comes second. *)
Lemma getEncryptionMethodFor_first_match_witness :
  regisAirdrop connected = Some deployment
  /\ getEncryptionMethodFor answering connected "registerEmail"
     = Fulfilled (Some "add256", None).
Proof.
  split; [reflexivity|].
  apply (getEncryptionMethodFor_first_match answering connected deployment
           [ {| type := "function"; name := "getTotalRegistered"; inputs := Some [] |} ]
           registerEmail_abi [] "registerEmail"); try reflexivity.
  apply Forall_cons. split; [right; discriminate|apply Forall_nil_2].
Defined.

End HookSpec.

(** ** Properties of the registration form *)

Module ComponentSpec.
Import Stdlib.Strings.Ascii.
Import Hook Component.

Local Open Scope N_scope.

(** *** Hexadecimal digits *)

Lemma below_16 (d : N) (P : N -> Prop) :
  d < 16 ->
  P 0 -> P 1 -> P 2 -> P 3 -> P 4 -> P 5 -> P 6 -> P 7 -> P 8 -> P 9 ->
  P 10 -> P 11 -> P 12 -> P 13 -> P 14 -> P 15 -> P d.
Proof.
  intros Hd.
  destruct d as [|p]; [auto|].
  repeat (match goal with q : positive |- _ => destruct q end; try lia); auto 20.
Qed.

Lemma hexval_hexdigit d : d < 16 -> hexval (hexdigit d) = Some d.
Proof. intros Hd. by apply (below_16 d (fun d => hexval (hexdigit d) = Some d)). Qed.

Lemma byte_split b : 16 * (Byte.to_N b / 16) + Byte.to_N b mod 16 = Byte.to_N b.
Proof. symmetry. apply N.div_mod. lia. Qed.

Lemma byte_high b : Byte.to_N b / 16 < 16.
Proof.
  pose proof (Byte.to_N_bounded b). apply N.Div0.div_lt_upper_bound. lia.
Qed.

Lemma byte_low b : Byte.to_N b mod 16 < 16.
Proof. apply N.mod_lt. lia. Qed.

(** *** From bytes to the number *)

Lemma toHex_app buf1 buf2 : toHex (buf1 ++ buf2) = (toHex buf1 +:+ toHex buf2)%string.
Proof. induction buf1 as [|b buf1 IH]; simpl; [done|]. by rewrite IH. Qed.

Lemma hexvalue_toHex buf : forall acc,
  hexvalue acc (toHex buf) = Some (bigEndian acc buf).
Proof.
  induction buf as [|b buf IH]; intros acc; simpl; [done|].
  rewrite !hexval_hexdigit by (apply byte_high || apply byte_low).
  rewrite <- IH. f_equal. pose proof (byte_split b). lia.
Qed.

Lemma bigEndian_snoc buf b : forall acc,
  bigEndian acc (buf ++ [b]) = 256 * bigEndian acc buf + Byte.to_N b.
Proof. induction buf as [|c buf IH]; intros acc; simpl; [done|]. apply IH. Qed.

Lemma bigEndian_lower buf : forall acc,
  acc * 256 ^ N.of_nat (length buf) <= bigEndian acc buf.
Proof.
  induction buf as [|b buf IH]; intros acc.
  - simpl. lia.
  - simpl bigEndian. etrans; [|apply IH].
    replace (N.of_nat (length (b :: buf))) with (N.succ (N.of_nat (length buf)))
      by (simpl; lia).
    rewrite N.pow_succ_r'. nia.
Qed.

Lemma bigEndian_upper buf : forall acc,
  bigEndian acc buf < (acc + 1) * 256 ^ N.of_nat (length buf).
Proof.
  induction buf as [|b buf IH]; intros acc.
  - simpl. lia.
  - simpl bigEndian. eapply N.lt_le_trans; [apply IH|].
    replace (N.of_nat (length (b :: buf))) with (N.succ (N.of_nat (length buf)))
      by (simpl; lia).
    rewrite N.pow_succ_r'. pose proof (Byte.to_N_bounded b).
    assert (0 < 256 ^ N.of_nat (length buf)) by (apply N.neq_0_lt_0, N.pow_nonzero; lia).
    nia.
Qed.

Lemma fromHex_toHex buf : fromHex (toHex buf) = buf.
Proof.
  induction buf as [|b buf IH]; simpl; [done|].
  rewrite !hexval_hexdigit by (apply byte_high || apply byte_low).
  rewrite IH, byte_split. unfold byte_of_N. by rewrite Byte.of_to_N.
Qed.

(** *** From the number back to the bytes *)

Lemma string_app_assoc (s1 s2 s3 : string) :
  ((s1 +:+ s2) +:+ s3 = s1 +:+ (s2 +:+ s3))%string.
Proof.
  induction s1 as [|c s1 IH]; [done|].
  rewrite !HookSpec.string_app_cons. by rewrite IH.
Qed.

Lemma string_length_app (s1 s2 : string) :
  String.length (s1 +:+ s2) = (String.length s1 + String.length s2)%nat.
Proof.
  induction s1 as [|c s1 IH]; [done|].
  rewrite HookSpec.string_app_cons. simpl. by rewrite IH.
Qed.

Lemma digits16_acc fuel : forall n acc,
  digits16 fuel n acc = (digits16 fuel n EmptyString +:+ acc)%string.
Proof.
  induction fuel as [|fuel IH]; intros n acc; simpl; [done|].
  destruct (n / 16 =? 0); [done|].
  rewrite IH. rewrite (IH _ (String _ EmptyString)).
  by rewrite string_app_assoc, HookSpec.string_app_cons.
Qed.

Lemma digits16_fuel f1 : forall f2 n acc,
  n < 16 ^ N.of_nat (S f1) -> n < 16 ^ N.of_nat (S f2) ->
  digits16 (S f1) n acc = digits16 (S f2) n acc.
Proof.
  induction f1 as [|f1 IH]; intros f2 n acc H1 H2.
  - simpl in H1. simpl.
    assert (Hq : n / 16 = 0) by (apply N.div_small; lia).
    by rewrite Hq.
  - cbn [digits16]. destruct (n / 16 =? 0) eqn:Hq; [done|].
    apply N.eqb_neq in Hq.
    assert (Hn : 16 <= n).
    { destruct (N.lt_ge_cases n 16) as [Hlt|]; [|done].
      exfalso. apply Hq. by apply N.div_small. }
    destruct f2 as [|f2].
    { simpl in H2. lia. }
    rewrite (Nat2N.inj_succ (S f1)), N.pow_succ_r' in H1.
    rewrite (Nat2N.inj_succ (S f2)), N.pow_succ_r' in H2.
    apply IH; apply N.Div0.div_lt_upper_bound; lia.
Qed.

Lemma toString16_fuel f n :
  n < 16 ^ N.of_nat (S f) -> digits16 (S f) n EmptyString = toString16 n.
Proof.
  intros H. unfold toString16. apply digits16_fuel; [done|].
  rewrite Nat2N.inj_succ, N2Nat.id, N.pow_succ_r'.
  pose proof (N.size_gt n) as Hs.
  assert (2 ^ N.size n <= 16 ^ N.size n) by (apply N.pow_le_mono_l; lia).
  lia.
Qed.

Lemma toString16_small d :
  d < 16 -> toString16 d = String (hexdigit d) EmptyString.
Proof.
  intros Hd. rewrite <- (toString16_fuel 0) by (simpl; lia). simpl.
  rewrite N.mod_small by done. by rewrite N.div_small.
Qed.

Lemma toString16_step q d :
  0 < q -> d < 16 ->
  toString16 (16 * q + d) = (toString16 q +:+ String (hexdigit d) EmptyString)%string.
Proof.
  intros Hq Hd. set (n := 16 * q + d).
  assert (Hdiv : n / 16 = q).
  { unfold n. rewrite N.mul_comm, N.div_add_l by lia. rewrite (N.div_small d) by done. lia. }
  assert (Hmod : n mod 16 = d).
  { unfold n. rewrite N.mul_comm, N.add_comm, N.Div0.mod_add. by apply N.mod_small. }
  pose proof (N.size_gt n) as Hs.
  assert (Hp : 2 ^ N.size n <= 16 ^ N.size n) by (apply N.pow_le_mono_l; lia).
  unfold toString16 at 1. cbn [digits16]. rewrite Hdiv, Hmod.
  destruct (q =? 0) eqn:Hz; [apply N.eqb_eq in Hz; lia|].
  rewrite digits16_acc. f_equal.
  destruct (N.to_nat (N.size n)) as [|k] eqn:Hk.
  { assert (N.size n = 0) by lia. rewrite H in Hs. simpl in Hs. lia. }
  apply toString16_fuel. rewrite <- Hk, N2Nat.id. lia.
Qed.

Lemma evenLength_app2 s c1 c2 :
  evenLength (s +:+ String c1 (String c2 EmptyString))
  = (evenLength s +:+ String c1 (String c2 EmptyString))%string.
Proof.
  unfold evenLength. rewrite string_length_app. simpl String.length.
  replace (String.length s + 2)%nat with (String.length s + 1 * 2)%nat by lia.
  rewrite Nat.Div0.mod_add.
  by destruct (String.length s mod 2 =? 0)%nat.
Qed.

Lemma bigEndian_positive b rest : b <> Byte.x00 -> 0 < bigEndian 0 (b :: rest).
Proof.
  intros Hb. cbn [bigEndian]. rewrite N.mul_0_r, N.add_0_l.
  assert (Byte.to_N b <> 0).
  { intros H0. apply Hb. apply (inj Some).
    rewrite <- (Byte.of_to_N b), H0. reflexivity. }
  assert (0 < 256 ^ N.of_nat (length rest)) by (apply N.neq_0_lt_0, N.pow_nonzero; lia).
  eapply N.lt_le_trans; [|apply bigEndian_lower].
  apply N.mul_pos_pos; lia.
Qed.

(** The digits of the number are the digits of the bytes it was made
    from, when the first byte is not zero. *)
Lemma toString16_bigEndian b rest :
  b <> Byte.x00 ->
  evenLength (toString16 (bigEndian 0 (b :: rest))) = toHex (b :: rest).
Proof.
  intros Hb. induction rest as [|c rest IH] using rev_ind.
  - cbn [bigEndian]. rewrite N.mul_0_r, N.add_0_l.
    pose proof (byte_split b) as Hs. pose proof (byte_high b) as Hh.
    pose proof (byte_low b) as Hl.
    assert (Byte.to_N b <> 0).
    { intros H0. apply Hb. apply (inj Some).
      rewrite <- (Byte.of_to_N b), H0. reflexivity. }
    simpl toHex. rewrite <- Hs at 1.
    destruct (N.eq_dec (Byte.to_N b / 16) 0) as [Hz|Hnz].
    + rewrite Hz. rewrite N.mul_0_r, N.add_0_l.
      by rewrite toString16_small.
    + rewrite toString16_step by lia. by rewrite toString16_small.
  - rewrite app_comm_cons, bigEndian_snoc, toHex_app.
    pose proof (bigEndian_positive b rest Hb) as Hpos.
    pose proof (byte_split c) as Hs. pose proof (byte_high c) as Hh.
    pose proof (byte_low c) as Hl.
    replace (256 * bigEndian 0 (b :: rest) + Byte.to_N c)
      with (16 * (16 * bigEndian 0 (b :: rest) + Byte.to_N c / 16) + Byte.to_N c mod 16)
      by lia.
    rewrite toString16_step by lia. rewrite toString16_step by lia.
    rewrite string_app_assoc, HookSpec.string_app_cons.
    change (EmptyString +:+ ?t)%string with t.
    rewrite evenLength_app2, IH. reflexivity.
Qed.

(** *** The number that is registered *)

(** X15. The number made from the bytes of an e-mail is their reading in
    base 256, most significant byte first; without bytes the conversion
    throws. *)
Theorem emailAsNumber_bigEndian buf :
  emailAsNumber buf
  = match buf with
    | [] => Rejected (ErrorObject "Cannot convert 0x to a BigInt")
    | _ => Fulfilled (bigEndian 0 buf)
    end.
Proof.
  destruct buf as [|b buf]; [done|].
  unfold emailAsNumber, BigInt_0x. rewrite hexvalue_toHex. reflexivity.
Qed.

Lemma emailAsNumber_cons b buf :
  emailAsNumber (b :: buf) = Fulfilled (bigEndian 0 (b :: buf)).
Proof. unfold emailAsNumber, BigInt_0x. by rewrite hexvalue_toHex. Qed.

Lemma emailAsNumber_value buf n :
  emailAsNumber buf = Fulfilled n -> buf <> [] /\ n = bigEndian 0 buf.
Proof.
  destruct buf as [|b buf]; [done|].
  rewrite emailAsNumber_cons. intros [= <-]. done.
Qed.

(** X16. Bytes that do not start with a zero byte are read back from
    their number as they were. *)
Theorem emailBytes_emailAsNumber b rest n :
  b <> Byte.x00 ->
  emailAsNumber (b :: rest) = Fulfilled n ->
  emailBytes n = b :: rest.
Proof.
  intros Hb Hn. apply emailAsNumber_value in Hn as [_ ->].
  unfold emailBytes. rewrite (toString16_bigEndian b rest Hb).
  apply fromHex_toHex.
Qed.

(** X17. A zero byte in front is lost: the bytes with and without it
    give the same number. *)
Theorem emailAsNumber_leading_zero buf :
  buf <> [] ->
  emailAsNumber (Byte.x00 :: buf) = emailAsNumber buf.
Proof.
  intros Hne. destruct buf as [|b buf]; [done|].
  unfold emailAsNumber, BigInt_0x. rewrite !hexvalue_toHex. reflexivity.
Qed.

(** X18. The number of at most 32 bytes fits a [uint256]. *)
Theorem emailAsNumber_fits buf n :
  (length buf <= 32)%nat ->
  emailAsNumber buf = Fulfilled n ->
  (Z.of_N n <= Contract.MAX_UINT256)%Z.
Proof.
  intros Hlen Hn. apply emailAsNumber_value in Hn as [_ ->].
  pose proof (bigEndian_upper buf 0) as Hu. rewrite N.add_0_l, N.mul_1_l in Hu.
  assert (Hp : 256 ^ N.of_nat (length buf) <= 256 ^ 32).
  { apply N.pow_le_mono_r; lia. }
  unfold Contract.MAX_UINT256.
  change (2 ^ 256)%Z with (Z.of_N (256 ^ 32)). lia.
Qed.

(** X19. The number of more than 32 bytes that do not start with a zero
    byte does not fit a [uint256]. *)
Theorem emailAsNumber_overflows b rest n :
  b <> Byte.x00 ->
  (32 <= length rest)%nat ->
  emailAsNumber (b :: rest) = Fulfilled n ->
  (Contract.MAX_UINT256 < Z.of_N n)%Z.
Proof.
  intros Hb Hlen Hn. apply emailAsNumber_value in Hn as [_ ->].
  cbn [bigEndian]. rewrite N.mul_0_r, N.add_0_l.
  pose proof (bigEndian_lower rest (Byte.to_N b)) as Hl.
  assert (Byte.to_N b <> 0).
  { intros H0. apply Hb. apply (inj Some).
    rewrite <- (Byte.of_to_N b), H0. reflexivity. }
  assert (Hp : 256 ^ 32 <= 256 ^ N.of_nat (length rest)).
  { apply N.pow_le_mono_r; lia. }
  unfold Contract.MAX_UINT256.
  change (2 ^ 256)%Z with (Z.of_N (256 ^ 32)). nia.
Qed.

Lemma bigEndian_zero buf : forall acc,
  bigEndian acc buf = 0 <-> acc = 0 /\ Forall (fun b => b = Byte.x00) buf.
Proof.
  induction buf as [|b buf IH]; intros acc; simpl.
  - split; [by split|by intros [? _]].
  - rewrite IH, Forall_cons. split.
    + intros [H0 Hf]. assert (acc = 0) by lia. assert (Byte.to_N b = 0) by lia.
      split; [done|]. split; [|done].
      apply (inj Some). rewrite <- (Byte.of_to_N b), H1. reflexivity.
    + intros (-> & -> & Hf). done.
Qed.

(** X20. The number is zero exactly when every byte is zero. *)
Theorem emailAsNumber_zero buf n :
  emailAsNumber buf = Fulfilled n ->
  n = 0 <-> Forall (fun b => b = Byte.x00) buf.
Proof.
  intros Hn. apply emailAsNumber_value in Hn as [_ ->].
  rewrite bigEndian_zero. split; [by intros [_ ?]|by split].
Qed.

(** *** The form *)

Section Form.

Context {jsstring : Type}.
Variable emailRegex_test : jsstring -> bool.
Variable utf8_bytes : jsstring -> list Byte.byte.
Variable utf8_string : list Byte.byte -> jsstring.
Context {enc params tx : Type}.
Variable E : env enc params tx.
Variable P : props.

Local Abbreviation handleSubmit := (handleSubmit emailRegex_test utf8_bytes E P).

Local Abbreviation decryptedEffect := (decryptedEffect utf8_string).

(** X21. For an e-mail that passes the test and has at least one byte,
    [handleSubmit] calls the hook with the number of its bytes and ends
    with [submitted] set and no error, whatever became of the
    registration: the hook reports its failures in its own message. *)
Theorem handleSubmit_marks_submitted processing (f : form) w :
  emailRegex_test (email f) = true ->
  utf8_bytes (email f) <> [] ->
  let n := bigEndian 0 (utf8_bytes (email f)) in
  handleSubmit processing f w
  = ({| email := email f; submitted := true; error := None;
        decryptedEmail := decryptedEmail f |},
     (settle (registerEmail E P processing (Z.of_N n) w)).2).
Proof.
  intros Ht Hne. unfold Component.handleSubmit. rewrite Ht. simpl.
  destruct (utf8_bytes (email f)) as [|b buf] eqn:Hb; [done|].
  rewrite emailAsNumber_cons.
  pose proof (HookSpec.registerEmail_resolves E P processing
                (Z.of_N (bigEndian 0 (b :: buf))) w) as Hr.
  destruct (settle (registerEmail E P processing _ w)) as [[|e] w'];
    [done|discriminate Hr].
Qed.

(** X22. Once the decryption hook holds, for a handle other than the zero
    handle, the number of bytes that do not start with a zero byte, the
    effect shows those bytes as the decrypted e-mail. *)
Theorem decryptedEffect_shows_email (f : form) h (results : gmap string N) b rest n :
  b <> Byte.x00 ->
  emailAsNumber (b :: rest) = Fulfilled n ->
  truthy h = true ->
  h <> ZeroHash ->
  results !! h = Some n ->
  decryptedEmail
    (decryptedEffect (isDecrypted (Some h) results) (clear (Some h) results) f)
  = Some (utf8_string (b :: rest)).
Proof.
  intros Hb Hn Ht Hz Hr.
  assert (Hpos : n <> 0).
  { apply emailAsNumber_value in Hn as [_ Hn]. subst n.
    pose proof (bigEndian_positive b rest Hb). lia. }
  unfold Component.decryptedEffect, isDecrypted, clear, clearEmail.
  rewrite Ht, Hr. simpl.
  apply String.eqb_neq in Hz. rewrite Hz. simpl.
  apply N.eqb_neq in Hpos. rewrite Hpos. simpl.
  apply emailAsNumber_value in Hn as [_ ->].
  unfold emailBytes. by rewrite (toString16_bigEndian b rest Hb), fromHex_toHex.
Qed.

(** X23. The effect changes the form only when the decryption hook holds
    a number other than zero for a handle other than the zero handle. *)
Theorem decryptedEffect_only_decrypted (f : form) emailHandle (results : gmap string N) :
  decryptedEffect (isDecrypted emailHandle results) (clear emailHandle results) f <> f ->
  exists h n,
    emailHandle = Some h /\ h <> ZeroHash /\ results !! h = Some n /\ n <> 0.
Proof.
  unfold Component.decryptedEffect, isDecrypted, clear, clearEmail.
  destruct emailHandle as [h|]; simpl; [|done].
  destruct (truthy h); simpl; [|done].
  destruct (String.eqb_spec h ZeroHash) as [->|Hz]; simpl.
  { by rewrite andb_false_r. }
  destruct (results !! h) as [n|] eqn:Hr; simpl; [|done].
  destruct (N.eqb_spec n 0) as [->|Hn]; simpl; [done|].
  intros _. by exists h, n.
Qed.

End Form.

(** *** The e-mail [a@b.c] *)

Lemma emailBytes_emailAsNumber_witness :
  Byte.x61 <> Byte.x00
  /\ emailAsNumber sample = Fulfilled 417692003939
  /\ emailBytes 417692003939 = sample.
Proof.
  assert (H : Byte.x61 <> Byte.x00) by discriminate.
  assert (Hn : emailAsNumber sample = Fulfilled 417692003939) by reflexivity.
  split; [exact H|]. split; [exact Hn|].
  exact (emailBytes_emailAsNumber Byte.x61 [Byte.x40; Byte.x62; Byte.x2e; Byte.x63]
           417692003939 H Hn).
Defined.

Lemma emailAsNumber_leading_zero_witness :
  sample <> []
  /\ emailAsNumber (Byte.x00 :: sample) = emailAsNumber sample.
Proof.
  assert (H : sample <> []) by discriminate.
  split; [exact H|]. exact (emailAsNumber_leading_zero sample H).
Defined.

Lemma emailAsNumber_fits_witness :
  (length sample <= 32)%nat
  /\ emailAsNumber sample = Fulfilled 417692003939
  /\ (Z.of_N 417692003939 <= Contract.MAX_UINT256)%Z.
Proof.
  assert (H : (length sample <= 32)%nat) by (simpl; lia).
  assert (Hn : emailAsNumber sample = Fulfilled 417692003939) by reflexivity.
  split; [exact H|]. split; [exact Hn|].
  exact (emailAsNumber_fits sample 417692003939 H Hn).
Defined.

(** Thirty-three letters [a]. *)
Lemma emailAsNumber_overflows_witness :
  Byte.x61 <> Byte.x00
  /\ (32 <= length (replicate 32 Byte.x61))%nat
  /\ (Contract.MAX_UINT256
      < Z.of_N (bigEndian 0 (Byte.x61 :: replicate 32 Byte.x61)))%Z.
Proof.
  assert (H : Byte.x61 <> Byte.x00) by discriminate.
  assert (Hl : (32 <= length (replicate 32 Byte.x61))%nat) by (simpl; lia).
  split; [exact H|]. split; [exact Hl|].
  apply (emailAsNumber_overflows Byte.x61 (replicate 32 Byte.x61) _ H Hl).
  reflexivity.
Defined.

Lemma emailAsNumber_zero_witness :
  emailAsNumber [Byte.x00; Byte.x00] = Fulfilled 0
  /\ (0 = 0 <-> Forall (fun b => b = Byte.x00) [Byte.x00; Byte.x00]).
Proof.
  assert (Hn : emailAsNumber [Byte.x00; Byte.x00] = Fulfilled 0) by reflexivity.
  split; [exact Hn|].
  exact (emailAsNumber_zero [Byte.x00; Byte.x00] 0 Hn).
Defined.

(** The e-mail is submitted while the transaction is rejected: the form
    shows it as submitted, the hook says what failed. *)
Lemma handleSubmit_marks_submitted_witness :
  String.eqb "a@b.c" "a@b.c" = true
  /\ ascii_bytes "a@b.c" <> []
  /\ handleSubmit (String.eqb "a@b.c") ascii_bytes rejecting connected false
       {| email := "a@b.c"; submitted := false; error := None; decryptedEmail := None |}
       idle
     = ({| email := "a@b.c"; submitted := true; error := None; decryptedEmail := None |},
        (settle (registerEmail rejecting connected false
                   (Z.of_N (bigEndian 0 (ascii_bytes "a@b.c"))) idle)).2).
Proof.
  assert (H : ascii_bytes "a@b.c" <> []) by discriminate.
  split; [reflexivity|]. split; [exact H|].
  exact (handleSubmit_marks_submitted (String.eqb "a@b.c") ascii_bytes rejecting connected
           false
           {| email := "a@b.c"; submitted := false; error := None; decryptedEmail := None |}
           idle eq_refl H).
Defined.

Lemma decryptedEffect_shows_email_witness :
  Byte.x61 <> Byte.x00
  /\ emailAsNumber sample = Fulfilled 417692003939
  /\ truthy "0x01" = true
  /\ "0x01" <> ZeroHash
  /\ ({[ "0x01" := 417692003939 ]} : gmap string N) !! "0x01" = Some 417692003939
  /\ decryptedEmail
       (decryptedEffect ascii_string
          (isDecrypted (Some "0x01") {[ "0x01" := 417692003939 ]})
          (clear (Some "0x01") {[ "0x01" := 417692003939 ]})
          {| email := "a@b.c"; submitted := true; error := None; decryptedEmail := None |})
     = Some (ascii_string sample).
Proof.
  assert (Hb : Byte.x61 <> Byte.x00) by discriminate.
  assert (Hz : "0x01" <> ZeroHash) by discriminate.
  assert (Hr : ({[ "0x01" := 417692003939 ]} : gmap string N) !! "0x01"
               = Some 417692003939) by apply lookup_singleton_eq.
  assert (Hn : emailAsNumber sample = Fulfilled 417692003939) by reflexivity.
  assert (Ht : truthy "0x01" = true) by reflexivity.
  split; [exact Hb|]. split; [exact Hn|]. split; [exact Ht|].
  split; [exact Hz|]. split; [exact Hr|].
  exact (decryptedEffect_shows_email ascii_string _ "0x01" _ Byte.x61
           [Byte.x40; Byte.x62; Byte.x2e; Byte.x63] 417692003939 Hb Hn Ht Hz Hr).
Defined.

Lemma decryptedEffect_only_decrypted_witness :
  decryptedEffect ascii_string
    (isDecrypted (Some "0x01") {[ "0x01" := 417692003939 ]})
    (clear (Some "0x01") {[ "0x01" := 417692003939 ]})
    {| email := "a@b.c"; submitted := true; error := None; decryptedEmail := None |}
  <> {| email := "a@b.c"; submitted := true; error := None; decryptedEmail := None |}
  /\ exists h n,
       Some "0x01" = Some h /\ h <> ZeroHash
       /\ ({[ "0x01" := 417692003939 ]} : gmap string N) !! h = Some n /\ n <> 0.
Proof.
  assert (H : decryptedEffect ascii_string
                (isDecrypted (Some "0x01") {[ "0x01" := 417692003939 ]})
                (clear (Some "0x01") {[ "0x01" := 417692003939 ]})
                {| email := "a@b.c"; submitted := true; error := None;
                   decryptedEmail := None |}
              <> {| email := "a@b.c"; submitted := true; error := None;
                    decryptedEmail := None |}).
  { vm_compute. discriminate. }
  split; [exact H|].
  exact (decryptedEffect_only_decrypted ascii_string _ _ _ H).
Defined.

End ComponentSpec.
